(** * Position analysis of a planar four-bar linkage

    A shallow embedding of [utils/math.ts] (the position solver
    [solveLinkage] and the trajectory sampler [computeTrajectory]) together
    with the record types of [types.ts], and the properties of the solver
    proved over it.

    Numbers.  A JavaScript [number] is modelled as a real, with one extra
    value for the not-a-number sentinel.  Arithmetic is exact real
    arithmetic: rounding, overflow and signed zeros are outside the model.
    The fields of a configuration are reals, so a configuration is finite
    by construction. *)

From Stdlib Require Import Reals Lra Lia ZArith List Bool Sorted.
From Equations Require Import Equations.
Import ListNotations.

Open Scope R_scope.

(** ** Numbers and the [Math] functions the solver uses *)

Inductive number : Type :=
| Fin (v : R)
| NaN.

Definition is_NaN (n : number) : bool :=
  match n with
  | NaN => true
  | Fin _ => false
  end.

(** The comparisons [>], [<], [<=] and [===] on finite numbers. *)
Definition Rgtb (a b : R) : bool := if Rgt_dec a b then true else false.
Definition Rltb (a b : R) : bool := if Rlt_dec a b then true else false.
Definition Reqb (a b : R) : bool := if Req_dec_T a b then true else false.

(** [Math.atan2(y, x)] on reals: the angle of the vector [(x, y)], in
    radians, with the origin mapped to [0]. *)
Definition atan2 (y x : R) : R :=
  if Rlt_dec 0 x then atan (y / x)
  else if Rlt_dec x 0 then
         if Rle_dec 0 y then atan (y / x) + PI else atan (y / x) - PI
       else if Rlt_dec 0 y then PI / 2
            else if Rlt_dec y 0 then - (PI / 2)
                 else 0.

(** ** [types.ts] *)

Record Point : Type := mkPoint { x : R; y : R }.

Record LinkageConfig : Type := mkConfig {
  r1 : R;      (* Ground A*B* *)
  r2 : R;      (* Crank A*A *)
  r3 : R;      (* Coupler AB *)
  r4 : R;      (* Output B*B *)
  r6 : R;      (* Coupler point distance AC *)
  beta : R;    (* Angle of AC relative to AB (degrees) *)
  theta2 : R   (* Driver angle (degrees) *)
}.

(** The assembly mode argument, of type [-1 | 1]. *)
Inductive AssemblyMode : Type :=
| Plus1
| Minus1.

Definition mode_value (m : AssemblyMode) : Z :=
  match m with
  | Plus1 => 1%Z
  | Minus1 => (-1)%Z
  end.

(** The [mode] field of a solution, of type ['open' | 'crossed']. *)
Inductive ModeName : Type :=
| open
| crossed.

Record LinkageSolution : Type := mkSolution {
  Ax : number;
  Ay : number;
  Bx : number;
  By : number;
  Cx : number;
  Cy : number;
  theta3 : number;   (* degrees *)
  theta4 : number;   (* degrees *)
  isValid : bool;
  mode : ModeName
}.

Module TrajectoryPoint.
Record t : Type := mk {
  theta2 : number;
  theta3 : number;
  theta4 : number;
  Cx : number;
  Cy : number
}.
End TrajectoryPoint.

(** ** [utils/math.ts] *)

Definition toRad (deg : R) : R := (deg * PI) / 180.
Definition toDeg (rad : R) : R := (rad * 180) / PI.

(** [{ ...config, theta2: t }] *)
Definition with_theta2 (config : LinkageConfig) (t : R) : LinkageConfig :=
  {| r1 := r1 config; r2 := r2 config; r3 := r3 config; r4 := r4 config;
     r6 := r6 config; beta := beta config; theta2 := t |}.

(** [assemblyMode === 1 ? 'open' : 'crossed'] *)
Definition mode_name (assemblyMode : AssemblyMode) : ModeName :=
  if Z.eqb (mode_value assemblyMode) 1 then open else crossed.

(** Solves the four-bar linkage vector loop equations using the
    intersection of two circles: circle 1 centred at A with radius r3,
    circle 2 centred at B* = (r1, 0) with radius r4. *)
Definition solveLinkage (config : LinkageConfig) (assemblyMode : AssemblyMode)
  : LinkageSolution :=
  let '{| r1 := r1; r2 := r2; r3 := r3; r4 := r4;
          r6 := r6; beta := beta; theta2 := theta2 |} := config in
  let theta2Rad := toRad theta2 in
  let betaRad := toRad beta in
  let B_star := {| x := r1; y := 0 |} in
  let Ax := r2 * cos theta2Rad in
  let Ay := r2 * sin theta2Rad in
  let d2 := (Ax - x B_star) ^ 2 + (Ay - y B_star) ^ 2 in
  let d := sqrt d2 in
  if Rgtb d (r3 + r4) || Rltb d (Rabs (r3 - r4)) || Reqb d 0 then
    {| Ax := Fin Ax; Ay := Fin Ay; Bx := NaN; By := NaN; Cx := NaN; Cy := NaN;
       theta3 := NaN; theta4 := NaN; isValid := false;
       mode := mode_name assemblyMode |}
  else
    let a := (r3 ^ 2 - r4 ^ 2 + d2) / (2 * d) in
    let h := sqrt (Rmax 0 (r3 ^ 2 - a ^ 2)) in
    let x2 := Ax + (a * (x B_star - Ax)) / d in
    let y2 := Ay + (a * (y B_star - Ay)) / d in
    let x3_1 := x2 + (h * (y B_star - Ay)) / d in
    let y3_1 := y2 - (h * (x B_star - Ax)) / d in
    let x3_2 := x2 - (h * (y B_star - Ay)) / d in
    let y3_2 := y2 + (h * (x B_star - Ax)) / d in
    let Bx := if Z.eqb (mode_value assemblyMode) 1 then x3_1 else x3_2 in
    let By := if Z.eqb (mode_value assemblyMode) 1 then y3_1 else y3_2 in
    let theta3Rad := atan2 (By - Ay) (Bx - Ax) in
    let theta3 := toDeg theta3Rad in
    let theta4Rad := atan2 (By - y B_star) (Bx - x B_star) in
    let theta4 := toDeg theta4Rad in
    let angleAC := theta3Rad + betaRad in
    let Cx := Ax + r6 * cos angleAC in
    let Cy := Ay + r6 * sin angleAC in
    {| Ax := Fin Ax; Ay := Fin Ay; Bx := Fin Bx; By := Fin By;
       Cx := Fin Cx; Cy := Fin Cy; theta3 := Fin theta3; theta4 := Fin theta4;
       isValid := true; mode := mode_name assemblyMode |}.

(** The number of iterations left when the loop counter is [t2]; the loop
    below terminates because it decreases. *)
Definition iterations_left (t2 : Z) : nat := Z.to_nat (- t2 + 362)%Z.

(** The loop of [computeTrajectory]:
    [for (let t2 = 0; t2 <= 360; t2 += 2) { ... }].
    The counter only takes the integer values 0, 2, 4, ..., so it is kept
    in [Z] and injected into the numbers where the code uses it as one.
    Besides [data], the loop state carries [calls], the arguments of the
    invocations of [solveLinkage] made so far, in order; [calls] is a ghost
    component that the code does not have. *)
Equations? trajectory_loop (config : LinkageConfig) (assemblyMode : AssemblyMode)
    (t2 : Z) (data : list TrajectoryPoint.t)
    (calls : list (LinkageConfig * AssemblyMode))
  : list TrajectoryPoint.t * list (LinkageConfig * AssemblyMode)
  by wf (iterations_left t2) lt :=
  trajectory_loop config assemblyMode t2 data calls with Z_le_gt_dec t2 360%Z => {
    | left _ :=
        let sol := solveLinkage (with_theta2 config (IZR t2)) assemblyMode in
        let calls' := calls ++ [(with_theta2 config (IZR t2), assemblyMode)] in
        if isValid sol then
          trajectory_loop config assemblyMode (t2 + 2)%Z
            (data ++ [ {| TrajectoryPoint.theta2 := Fin (IZR t2);
                          TrajectoryPoint.theta3 := theta3 sol;
                          TrajectoryPoint.theta4 := theta4 sol;
                          TrajectoryPoint.Cx := Cx sol;
                          TrajectoryPoint.Cy := Cy sol |} ])
            calls'
        else
          trajectory_loop config assemblyMode (t2 + 2)%Z data calls';
    | right _ := (data, calls) }.
Proof. all: unfold iterations_left; lia. Qed.

(** Pre-computes the full cycle for plotting. *)
Definition computeTrajectory (config : LinkageConfig) (assemblyMode : AssemblyMode)
  : list TrajectoryPoint.t :=
  fst (trajectory_loop config assemblyMode 0%Z [] []).

(** The invocations of [solveLinkage] made by one run of
    [computeTrajectory], in order. *)
Definition computeTrajectory_calls (config : LinkageConfig)
    (assemblyMode : AssemblyMode) : list (LinkageConfig * AssemblyMode) :=
  snd (trajectory_loop config assemblyMode 0%Z [] []).

(** ** The solver with its partial operations made explicit

    Real division and the real square root are partial.  [Guarded] repeats
    the body of [solveLinkage] with every division and every square root
    replaced by an operation that raises a fault outside its domain, so
    that a run of the solver either returns a solution or stops at the
    first fault. *)
Module Guarded.

Inductive fault : Type :=
| DivisionByZero
| SqrtOfNegative.

Inductive outcome (A : Type) : Type :=
| Returned (a : A)
| Raised (f : fault).
Arguments Returned {A} a.
Arguments Raised {A} f.

Definition bind {A B : Type} (m : outcome A) (k : A -> outcome B) : outcome B :=
  match m with
  | Returned a => k a
  | Raised f => Raised f
  end.

Notation "'do' v <- m ; k" := (bind m (fun v => k))
  (at level 10, v name, m at level 100, k at level 200).

Definition div (a b : R) : outcome R :=
  if Req_dec_T b 0 then Raised DivisionByZero else Returned (a / b).

Definition sqrt (a : R) : outcome R :=
  if Rlt_dec a 0 then Raised SqrtOfNegative else Returned (R_sqrt.sqrt a).

Definition toRad (deg : R) : outcome R := div (deg * PI) 180.
Definition toDeg (rad : R) : outcome R := div (rad * 180) PI.

Definition solveLinkage (config : LinkageConfig) (assemblyMode : AssemblyMode)
  : outcome LinkageSolution :=
  let '{| r1 := r1; r2 := r2; r3 := r3; r4 := r4;
          r6 := r6; beta := beta; theta2 := theta2 |} := config in
  do theta2Rad <- toRad theta2;
  do betaRad <- toRad beta;
  let B_star := {| x := r1; y := 0 |} in
  let Ax := r2 * cos theta2Rad in
  let Ay := r2 * sin theta2Rad in
  let d2 := (Ax - x B_star) ^ 2 + (Ay - y B_star) ^ 2 in
  do d <- sqrt d2;
  if Rgtb d (r3 + r4) || Rltb d (Rabs (r3 - r4)) || Reqb d 0 then
    Returned
      {| Ax := Fin Ax; Ay := Fin Ay; Bx := NaN; By := NaN; Cx := NaN; Cy := NaN;
         theta3 := NaN; theta4 := NaN; isValid := false;
         mode := mode_name assemblyMode |}
  else
    do a <- div (r3 ^ 2 - r4 ^ 2 + d2) (2 * d);
    do h <- sqrt (Rmax 0 (r3 ^ 2 - a ^ 2));
    do qx2 <- div (a * (x B_star - Ax)) d;
    let x2 := Ax + qx2 in
    do qy2 <- div (a * (y B_star - Ay)) d;
    let y2 := Ay + qy2 in
    do qx3_1 <- div (h * (y B_star - Ay)) d;
    let x3_1 := x2 + qx3_1 in
    do qy3_1 <- div (h * (x B_star - Ax)) d;
    let y3_1 := y2 - qy3_1 in
    do qx3_2 <- div (h * (y B_star - Ay)) d;
    let x3_2 := x2 - qx3_2 in
    do qy3_2 <- div (h * (x B_star - Ax)) d;
    let y3_2 := y2 + qy3_2 in
    let Bx := if Z.eqb (mode_value assemblyMode) 1 then x3_1 else x3_2 in
    let By := if Z.eqb (mode_value assemblyMode) 1 then y3_1 else y3_2 in
    let theta3Rad := atan2 (By - Ay) (Bx - Ax) in
    do theta3 <- toDeg theta3Rad;
    let theta4Rad := atan2 (By - y B_star) (Bx - x B_star) in
    do theta4 <- toDeg theta4Rad;
    let angleAC := theta3Rad + betaRad in
    let Cx := Ax + r6 * cos angleAC in
    let Cy := Ay + r6 * sin angleAC in
    Returned
      {| Ax := Fin Ax; Ay := Fin Ay; Bx := Fin Bx; By := Fin By;
         Cx := Fin Cx; Cy := Fin Cy; theta3 := Fin theta3; theta4 := Fin theta4;
         isValid := true; mode := mode_name assemblyMode |}.

End Guarded.

(** ** The quantities the solver computes, as functions of the configuration

    Each definition below is one local constant of [solveLinkage]; the
    lemma [solveLinkage_eq] states the solver in terms of them. *)

(** The second fixed pivot, [B_star = { x: r1, y: 0 }]. *)
Definition B_star (config : LinkageConfig) : Point :=
  {| x := r1 config; y := 0 |}.

(** The crank joint, [(Ax, Ay)]. *)
Definition jointA (config : LinkageConfig) : Point :=
  {| x := r2 config * cos (toRad (theta2 config));
     y := r2 config * sin (toRad (theta2 config)) |}.

Definition d2_of (config : LinkageConfig) : R :=
  (x (jointA config) - x (B_star config)) ^ 2
  + (y (jointA config) - y (B_star config)) ^ 2.

Definition d_of (config : LinkageConfig) : R := sqrt (d2_of config).

(** The condition of the early return:
    [d > r3 + r4 || d < Math.abs(r3 - r4) || d === 0]. *)
Definition assembly_broken (config : LinkageConfig) : bool :=
  Rgtb (d_of config) (r3 config + r4 config)
  || Rltb (d_of config) (Rabs (r3 config - r4 config))
  || Reqb (d_of config) 0.

Definition a_of (config : LinkageConfig) : R :=
  (r3 config ^ 2 - r4 config ^ 2 + d2_of config) / (2 * d_of config).

Definition h_of (config : LinkageConfig) : R :=
  sqrt (Rmax 0 (r3 config ^ 2 - a_of config ^ 2)).

(** The midpoint [(x2, y2)] between the intersections. *)
Definition midpoint (config : LinkageConfig) : Point :=
  {| x := x (jointA config)
          + (a_of config * (x (B_star config) - x (jointA config))) / d_of config;
     y := y (jointA config)
          + (a_of config * (y (B_star config) - y (jointA config))) / d_of config |}.

(** The first solution for B, [(x3_1, y3_1)]. *)
Definition candidate1 (config : LinkageConfig) : Point :=
  {| x := x (midpoint config)
          + (h_of config * (y (B_star config) - y (jointA config))) / d_of config;
     y := y (midpoint config)
          - (h_of config * (x (B_star config) - x (jointA config))) / d_of config |}.

(** The second solution for B, [(x3_2, y3_2)]. *)
Definition candidate2 (config : LinkageConfig) : Point :=
  {| x := x (midpoint config)
          - (h_of config * (y (B_star config) - y (jointA config))) / d_of config;
     y := y (midpoint config)
          + (h_of config * (x (B_star config) - x (jointA config))) / d_of config |}.

(** The selected solution, [(Bx, By)]. *)
Definition jointB (config : LinkageConfig) (assemblyMode : AssemblyMode) : Point :=
  {| x := if Z.eqb (mode_value assemblyMode) 1
          then x (candidate1 config) else x (candidate2 config);
     y := if Z.eqb (mode_value assemblyMode) 1
          then y (candidate1 config) else y (candidate2 config) |}.

Definition theta3Rad_of (config : LinkageConfig) (assemblyMode : AssemblyMode) : R :=
  atan2 (y (jointB config assemblyMode) - y (jointA config))
        (x (jointB config assemblyMode) - x (jointA config)).

Definition theta4Rad_of (config : LinkageConfig) (assemblyMode : AssemblyMode) : R :=
  atan2 (y (jointB config assemblyMode) - y (B_star config))
        (x (jointB config assemblyMode) - x (B_star config)).

(** The coupler point, [(Cx, Cy)]. *)
Definition jointC (config : LinkageConfig) (assemblyMode : AssemblyMode) : Point :=
  {| x := x (jointA config)
          + r6 config * cos (theta3Rad_of config assemblyMode + toRad (beta config));
     y := y (jointA config)
          + r6 config * sin (theta3Rad_of config assemblyMode + toRad (beta config)) |}.

(** ** Notions used to state the properties *)

(** Euclidean distance between two points of the plane. *)
Definition dist (p q : Point) : R :=
  sqrt ((x p - x q) ^ 2 + (y p - y q) ^ 2).

(** The point held by a pair of coordinate fields, when both are finite. *)
Definition point_of (nx ny : number) : option Point :=
  match nx, ny with
  | Fin vx, Fin vy => Some {| x := vx; y := vy |}
  | _, _ => None
  end.

(** The validity test: the two circles intersect. *)
Definition circles_intersect (config : LinkageConfig) : Prop :=
  Rabs (r3 config - r4 config) <= dist (jointA config) (B_star config)
                               <= r3 config + r4 config
  /\ dist (jointA config) (B_star config) > 0.

(** The driver angles sampled by [computeTrajectory]: 0, 2, 4, ..., 360. *)
Definition sample_angles : list Z :=
  map (fun k => (2 * Z.of_nat k)%Z) (seq 0 181).

(** The [n] values taken by the loop counter from [t2] on, in steps of 2. *)
Fixpoint angles_from (t2 : Z) (n : nat) : list Z :=
  match n with
  | O => []
  | S n' => t2 :: angles_from (t2 + 2)%Z n'
  end.

(** The arguments of the solver invocation made for the driver angle [t2]. *)
Definition sample_call (config : LinkageConfig) (assemblyMode : AssemblyMode)
    (t2 : Z) : LinkageConfig * AssemblyMode :=
  (with_theta2 config (IZR t2), assemblyMode).

(** Two configurations with the same geometry: they agree on every field
    except possibly the driver angle. *)
Definition same_geometry (config config' : LinkageConfig) : Prop :=
  r1 config = r1 config' /\ r2 config = r2 config' /\ r3 config = r3 config'
  /\ r4 config = r4 config' /\ r6 config = r6 config'
  /\ beta config = beta config'.

(** The trajectory point pushed for the driver angle [t2]. *)
Definition sample_point (config : LinkageConfig) (assemblyMode : AssemblyMode)
    (t2 : Z) : TrajectoryPoint.t :=
  let sol := solveLinkage (with_theta2 config (IZR t2)) assemblyMode in
  {| TrajectoryPoint.theta2 := Fin (IZR t2);
     TrajectoryPoint.theta3 := theta3 sol;
     TrajectoryPoint.theta4 := theta4 sol;
     TrajectoryPoint.Cx := Cx sol;
     TrajectoryPoint.Cy := Cy sol |}.

(** Whether the solver reports a valid pose at the driver angle [t2]. *)
Definition sample_valid (config : LinkageConfig) (assemblyMode : AssemblyMode)
    (t2 : Z) : bool :=
  isValid (solveLinkage (with_theta2 config (IZR t2)) assemblyMode).

(** Strictly increasing driver angle between two trajectory points. *)
Definition theta2_lt (p q : TrajectoryPoint.t) : Prop :=
  match TrajectoryPoint.theta2 p, TrajectoryPoint.theta2 q with
  | Fin vp, Fin vq => vp < vq
  | _, _ => False
  end.

(** ** Concrete configurations *)

(** The initial configuration of the application, at driver angle 0. *)
Definition initial_config : LinkageConfig :=
  {| r1 := 1; r2 := 2; r3 := 7 / 2; r4 := 4; r6 := sqrt 5;
     beta := toDeg (atan (1 / 2)); theta2 := 0 |}.

(** The same mechanism at driver angle 90. *)
Definition initial_config_90 : LinkageConfig :=
  {| r1 := 1; r2 := 2; r3 := 7 / 2; r4 := 4; r6 := sqrt 5;
     beta := toDeg (atan (1 / 2)); theta2 := 90 |}.

(** A ground link much longer than the other links: the two circles can
    never reach each other. *)
Definition unreachable_config : LinkageConfig :=
  {| r1 := 10; r2 := 1; r3 := 1; r4 := 1; r6 := 1; beta := 0; theta2 := 0 |}.

(** The crank joint lands on the second fixed pivot. *)
Definition coincident_config : LinkageConfig :=
  {| r1 := 1; r2 := 1; r3 := 1; r4 := 1; r6 := 1; beta := 0; theta2 := 0 |}.

(** ** [App.tsx] *)

(** The comparison [>=] on finite numbers. *)
Definition Rgeb (a b : R) : bool := if Rge_dec a b then true else false.

(** The state update that [animate] passes to [setConfig]; [deltaTime] is
    the time since the previous frame, in milliseconds (60 degrees per
    second base speed times the multiplier). *)
Definition animate_update (animationSpeed deltaTime : R) (prev : LinkageConfig)
  : LinkageConfig :=
  let speed := 6 / 100 * animationSpeed in
  let newTheta := theta2 prev + speed * deltaTime in
  let newTheta := if Rgeb newTheta 360 then newTheta - 360 else newTheta in
  with_theta2 prev newTheta.

(** [onToggleMode]: [m => m === 1 ? -1 : 1]. *)
Definition toggleMode (m : AssemblyMode) : AssemblyMode :=
  if Z.eqb (mode_value m) 1 then Minus1 else Plus1.

(** ** [components/SolutionTable.tsx] *)

Module SolutionTable.

(** The fields of a [LinkageSolution] that the table reads. *)
Local Abbreviation sol_isValid := isValid (only parsing).
Local Abbreviation sol_theta3 := theta3 (only parsing).
Local Abbreviation sol_theta4 := theta4 (only parsing).

(** A cell of the table: [v.toFixed(digits)], kept as the number that is
    formatted and the number of digits, or the text ['N/A']. *)
Inductive cell : Type :=
| toFixed (v : number) (digits : nat)
| NotAvailable.

Record row : Type := mkRow {
  angle : R;       (* the number shown by the template string *)
  theta2 : R;
  theta3 : cell;
  theta4 : cell;
  isValid : bool
}.

Definition testAngles : list R := [0; 90; 180; -90].

(** [angle < 0 ? 360 + angle : angle] *)
Definition normalizedAngle (angle : R) : R :=
  if Rltb angle 0 then 360 + angle else angle.

Definition result (config : LinkageConfig) (assemblyMode : AssemblyMode)
    (angle : R) : row :=
  let displayAngle := if Rltb angle 0 then angle else angle in
  let normalizedAngle := if Rltb angle 0 then 360 + angle else angle in
  let sol := solveLinkage (with_theta2 config normalizedAngle) assemblyMode in
  {| angle := displayAngle;
     theta2 := normalizedAngle;
     theta3 := if sol_isValid sol then toFixed (sol_theta3 sol) 2 else NotAvailable;
     theta4 := if sol_isValid sol then toFixed (sol_theta4 sol) 2 else NotAvailable;
     isValid := sol_isValid sol |}.

Definition results (config : LinkageConfig) (assemblyMode : AssemblyMode)
  : list row :=
  map (result config assemblyMode) testAngles.

End SolutionTable.

(** ** [components/LinkageCanvas.tsx] *)

Module LinkageCanvas.

(** Coordinate transform: Math (y up) to SVG (y down). *)
Definition toSvg (vx vy : R) : Point := {| x := vx; y := - vy |}.

Record ViewBox : Type := mkViewBox { x : R; y : R; w : R; h : R }.

(** The view set on mount. *)
Definition mountView : ViewBox := {| x := -2; y := -6; w := 8; h := 8 |}.

(** The view set by [resetView]. *)
Definition resetView : ViewBox := {| x := -2; y := -4; w := 8; h := 8 |}.

(** [handleWheel]: [viewBox] is the view of the render in which the handler
    was created and [prev] the state the update is applied to. *)
Definition handleWheel (deltaY : R) (viewBox prev : ViewBox) : ViewBox :=
  let zoomFactor := 11 / 10 in
  let direction := if Rgtb deltaY 0 then 1 else -1 in
  let newW := w viewBox * (if Rgtb direction 0 then zoomFactor else 1 / zoomFactor) in
  let newH := h viewBox * (if Rgtb direction 0 then zoomFactor else 1 / zoomFactor) in
  let '(newW, newH) := if Rltb newW 1 then (1, 1) else (newW, newH) in
  let '(newW, newH) := if Rgtb newW 50 then (50, 50) else (newW, newH) in
  let dx := (w viewBox - newW) / 2 in
  let dy := (h viewBox - newH) / 2 in
  {| x := x prev + dx; y := y prev + dy; w := newW; h := newH |}.

(** The state of a drag: the view, the dragging flag and the last mouse
    position [(clientX, clientY)]. *)
Record DragState : Type := mkDragState {
  viewBox : ViewBox;
  isDragging : bool;
  dragStartX : R;
  dragStartY : R
}.

(** [handleMouseDown] *)
Definition handleMouseDown (clientX clientY : R) (s : DragState) : DragState :=
  {| viewBox := viewBox s; isDragging := true;
     dragStartX := clientX; dragStartY := clientY |}.

(** [handleMouseMove]; [width] is the width of the container's bounding
    rectangle, absent when the container is not mounted. *)
Definition handleMouseMove (clientX clientY : R) (width : option R)
    (s : DragState) : DragState :=
  if negb (isDragging s) then s
  else
    let dxPx := clientX - dragStartX s in
    let dyPx := clientY - dragStartY s in
    match width with
    | Some width =>
        let scale := width / w (viewBox s) in
        let dx := - dxPx / scale in
        let dy := - dyPx / scale in
        {| viewBox := {| x := x (viewBox s) + dx; y := y (viewBox s) + dy;
                         w := w (viewBox s); h := h (viewBox s) |};
           isDragging := isDragging s;
           dragStartX := clientX; dragStartY := clientY |}
    | None => s
    end.

(** [handleMouseUp] *)
Definition handleMouseUp (s : DragState) : DragState :=
  {| viewBox := viewBox s; isDragging := false;
     dragStartX := dragStartX s; dragStartY := dragStartY s |}.

End LinkageCanvas.

(** ** [components/ControlPanel.tsx] *)

(** [keyof LinkageConfig] *)
Inductive ConfigKey : Type :=
| key_r1 | key_r2 | key_r3 | key_r4 | key_r6 | key_beta | key_theta2.

(** [config[key]] *)
Definition config_get (config : LinkageConfig) (key : ConfigKey) : R :=
  match key with
  | key_r1 => r1 config
  | key_r2 => r2 config
  | key_r3 => r3 config
  | key_r4 => r4 config
  | key_r6 => r6 config
  | key_beta => beta config
  | key_theta2 => theta2 config
  end.

(** [updateConfig]: the configuration [{ ...config, [key]: val }] handed to
    [onChange]. *)
Definition updateConfig (config : LinkageConfig) (key : ConfigKey) (val : R)
  : LinkageConfig :=
  match key with
  | key_r1 =>
      {| r1 := val; r2 := r2 config; r3 := r3 config; r4 := r4 config;
         r6 := r6 config; beta := beta config; theta2 := theta2 config |}
  | key_r2 =>
      {| r1 := r1 config; r2 := val; r3 := r3 config; r4 := r4 config;
         r6 := r6 config; beta := beta config; theta2 := theta2 config |}
  | key_r3 =>
      {| r1 := r1 config; r2 := r2 config; r3 := val; r4 := r4 config;
         r6 := r6 config; beta := beta config; theta2 := theta2 config |}
  | key_r4 =>
      {| r1 := r1 config; r2 := r2 config; r3 := r3 config; r4 := val;
         r6 := r6 config; beta := beta config; theta2 := theta2 config |}
  | key_r6 =>
      {| r1 := r1 config; r2 := r2 config; r3 := r3 config; r4 := r4 config;
         r6 := val; beta := beta config; theta2 := theta2 config |}
  | key_beta =>
      {| r1 := r1 config; r2 := r2 config; r3 := r3 config; r4 := r4 config;
         r6 := r6 config; beta := val; theta2 := theta2 config |}
  | key_theta2 =>
      {| r1 := r1 config; r2 := r2 config; r3 := r3 config; r4 := r4 config;
         r6 := r6 config; beta := beta config; theta2 := val |}
  end.

(** * Properties *)

(** ** Comparisons *)

Lemma Rgtb_true (a b : R) : Rgtb a b = true <-> a > b.
Proof. unfold Rgtb. destruct (Rgt_dec a b); split; intros; try easy. Qed.

Lemma Rltb_true (a b : R) : Rltb a b = true <-> a < b.
Proof. unfold Rltb. destruct (Rlt_dec a b); split; intros; try easy. Qed.

Lemma Reqb_true (a b : R) : Reqb a b = true <-> a = b.
Proof. unfold Reqb. destruct (Req_dec_T a b); split; intros; try easy. Qed.

(** ** The solver in terms of its intermediate quantities *)

Lemma solveLinkage_eq (config : LinkageConfig) (assemblyMode : AssemblyMode) :
  solveLinkage config assemblyMode =
  if assembly_broken config then
    {| Ax := Fin (x (jointA config)); Ay := Fin (y (jointA config));
       Bx := NaN; By := NaN; Cx := NaN; Cy := NaN;
       theta3 := NaN; theta4 := NaN; isValid := false;
       mode := mode_name assemblyMode |}
  else
    {| Ax := Fin (x (jointA config)); Ay := Fin (y (jointA config));
       Bx := Fin (x (jointB config assemblyMode));
       By := Fin (y (jointB config assemblyMode));
       Cx := Fin (x (jointC config assemblyMode));
       Cy := Fin (y (jointC config assemblyMode));
       theta3 := Fin (toDeg (theta3Rad_of config assemblyMode));
       theta4 := Fin (toDeg (theta4Rad_of config assemblyMode));
       isValid := true; mode := mode_name assemblyMode |}.
Proof. destruct config. reflexivity. Qed.

Lemma isValid_solveLinkage (config : LinkageConfig) (assemblyMode : AssemblyMode) :
  isValid (solveLinkage config assemblyMode) = negb (assembly_broken config).
Proof.
  rewrite solveLinkage_eq. destruct (assembly_broken config); reflexivity.
Qed.

(** ** The distance from the crank joint to the second pivot *)

Lemma d_of_dist (config : LinkageConfig) :
  d_of config = dist (jointA config) (B_star config).
Proof. reflexivity. Qed.

Lemma d2_of_nonneg (config : LinkageConfig) : 0 <= d2_of config.
Proof.
  unfold d2_of.
  apply Rplus_le_le_0_compat; apply pow2_ge_0.
Qed.

Lemma d_of_nonneg (config : LinkageConfig) : 0 <= d_of config.
Proof. apply sqrt_pos. Qed.

Lemma d_of_sqr (config : LinkageConfig) : d_of config * d_of config = d2_of config.
Proof. apply sqrt_sqrt, d2_of_nonneg. Qed.

Lemma assembly_broken_false (config : LinkageConfig) :
  assembly_broken config = false <->
  Rabs (r3 config - r4 config) <= d_of config <= r3 config + r4 config
  /\ d_of config > 0.
Proof.
  unfold assembly_broken.
  rewrite !orb_false_iff.
  pose proof (d_of_nonneg config) as Hd.
  split.
  - intros [[Hgt Hlt] Heq].
    assert (~ d_of config > r3 config + r4 config) as H1
      by (intro H; apply Rgtb_true in H; congruence).
    assert (~ d_of config < Rabs (r3 config - r4 config)) as H2
      by (intro H; apply Rltb_true in H; congruence).
    assert (d_of config <> 0) as H3
      by (intro H; apply Reqb_true in H; congruence).
    lra.
  - intros [[Hlo Hhi] Hpos].
    repeat split; apply not_true_is_false; intro H.
    + apply Rgtb_true in H. lra.
    + apply Rltb_true in H. lra.
    + apply Reqb_true in H. lra.
Qed.

Lemma assembly_broken_true (config : LinkageConfig) :
  assembly_broken config = true <->
  ~ (Rabs (r3 config - r4 config) <= d_of config <= r3 config + r4 config
     /\ d_of config > 0).
Proof.
  rewrite <- assembly_broken_false.
  destruct (assembly_broken config); split; intros; congruence.
Qed.

(** ** Algebra of the two-circle construction *)

Section CircleAlgebra.

Variables (R3 R4 d a : R).
Hypothesis d_pos : 0 < d.
Hypothesis triangle : Rabs (R3 - R4) <= d <= R3 + R4.
Hypothesis a_def : a = (R3 ^ 2 - R4 ^ 2 + d * d) / (2 * d).

Lemma radii_nonneg : 0 <= R3 /\ 0 <= R4.
Proof using d_pos triangle.
  destruct triangle as [Hlo Hhi].
  unfold Rabs in Hlo. destruct (Rcase_abs (R3 - R4)); lra.
Qed.

Lemma a_times_2d : 2 * d * a = R3 ^ 2 - R4 ^ 2 + d * d.
Proof using d_pos a_def. rewrite a_def. field. lra. Qed.

Lemma chord_nonneg : 0 <= R3 ^ 2 - a ^ 2.
Proof using d_pos triangle a_def.
  pose proof a_times_2d as Ha.
  destruct radii_nonneg as [H3 H4].
  destruct triangle as [Hlo Hhi].
  assert (R3 - R4 <= d /\ R4 - R3 <= d) as [Hlo1 Hlo2].
  { unfold Rabs in Hlo. destruct (Rcase_abs (R3 - R4)); lra. }
  assert (0 <= 2 * d * (R3 - a)) as Hm by nra.
  assert (0 <= 2 * d * (R3 + a)) as Hp by nra.
  assert (0 <= R3 - a) as Hm' by nra.
  assert (0 <= R3 + a) as Hp' by nra.
  nra.
Qed.

Lemma half_chord_sqr :
  sqrt (Rmax 0 (R3 ^ 2 - a ^ 2)) * sqrt (Rmax 0 (R3 ^ 2 - a ^ 2))
  = R3 ^ 2 - a ^ 2.
Proof using d_pos triangle a_def.
  rewrite Rmax_right by apply chord_nonneg.
  apply sqrt_sqrt, chord_nonneg.
Qed.

(** The half chord vanishes exactly at the two tangencies. *)
Lemma half_chord_zero_iff :
  sqrt (Rmax 0 (R3 ^ 2 - a ^ 2)) = 0 <-> d = R3 + R4 \/ d = Rabs (R3 - R4).
Proof using d_pos triangle a_def.
  pose proof a_times_2d as Ha.
  pose proof chord_nonneg as Hc.
  destruct radii_nonneg as [H3 H4].
  rewrite Rmax_right by exact Hc.
  assert (2 * d * (R3 - a) = (R4 - (d - R3)) * (R4 + (d - R3))) as Hm by nra.
  assert (2 * d * (R3 + a) = ((d + R3) - R4) * ((d + R3) + R4)) as Hp by nra.
  split.
  - intro Hz.
    assert (R3 ^ 2 - a ^ 2 = 0) as Hz'.
    { destruct (Req_dec_T (R3 ^ 2 - a ^ 2) 0) as [E|E]; [exact E|].
      assert (0 < R3 ^ 2 - a ^ 2) as Hlt by lra.
      apply sqrt_lt_R0 in Hlt. lra. }
    assert ((R3 - a) * (R3 + a) = 0) as Hprod by nra.
    apply Rmult_integral in Hprod.
    destruct Hprod as [E|E].
    + rewrite E, Rmult_0_r in Hm. symmetry in Hm.
      apply Rmult_integral in Hm. destruct Hm as [E1|E1].
      * left. lra.
      * right. unfold Rabs. destruct (Rcase_abs (R3 - R4)); lra.
    + rewrite E, Rmult_0_r in Hp. symmetry in Hp.
      apply Rmult_integral in Hp. destruct Hp as [E1|E1].
      * right. unfold Rabs. destruct (Rcase_abs (R3 - R4)); lra.
      * lra.
  - intros Ht.
    assert (R3 ^ 2 - a ^ 2 = 0) as Hz.
    { assert ((2 * d * (R3 - a)) * (2 * d * (R3 + a)) = 0) as Hq.
      { rewrite Hm, Hp.
        destruct Ht as [E|E].
        - rewrite E. ring.
        - unfold Rabs in E. destruct (Rcase_abs (R3 - R4)); rewrite E; ring. }
      assert (4 * (d * d) * (R3 ^ 2 - a ^ 2) = 0) as Hq' by (rewrite <- Hq; ring).
      apply Rmult_integral in Hq'. destruct Hq' as [E|E]; [nra | exact E]. }
    rewrite Hz. apply sqrt_0.
Qed.

Variables (ux uy h : R).
Hypothesis unit_u : ux * ux + uy * uy = 1.
Hypothesis h_sqr : h * h = R3 ^ 2 - a ^ 2.

(** Both candidates lie on the circle of radius [R3] about the first
    centre and on the circle of radius [R4] about the second one, which
    is at [d] times the unit vector [(ux, uy)] from the first. *)
Lemma on_first_circle (s : R) :
  s * s = 1 ->
  (a * ux + s * h * uy) ^ 2 + (a * uy - s * h * ux) ^ 2 = R3 ^ 2.
Proof using unit_u h_sqr.
  intro Hs.
  replace ((a * ux + s * h * uy) ^ 2 + (a * uy - s * h * ux) ^ 2)
    with ((a * a + (s * s) * (h * h)) * (ux * ux + uy * uy)) by ring.
  rewrite Hs, unit_u, h_sqr. ring.
Qed.

Lemma on_second_circle (s : R) :
  s * s = 1 ->
  ((a - d) * ux + s * h * uy) ^ 2 + ((a - d) * uy - s * h * ux) ^ 2 = R4 ^ 2.
Proof using d_pos a_def unit_u h_sqr.
  intro Hs.
  pose proof a_times_2d as Ha.
  replace (((a - d) * ux + s * h * uy) ^ 2 + ((a - d) * uy - s * h * ux) ^ 2)
    with (((a - d) * (a - d) + (s * s) * (h * h)) * (ux * ux + uy * uy)) by ring.
  rewrite Hs, unit_u, h_sqr. nra.
Qed.

End CircleAlgebra.

(** ** The intersection construction on a configuration that assembles *)

Section ValidConfiguration.

Variable config : LinkageConfig.
Hypothesis assembles : assembly_broken config = false.

Let ux : R := (x (B_star config) - x (jointA config)) / d_of config.
Let uy : R := (y (B_star config) - y (jointA config)) / d_of config.

Lemma valid_d_pos : 0 < d_of config.
Proof using assembles. apply assembly_broken_false in assembles. lra. Qed.

Lemma valid_triangle :
  Rabs (r3 config - r4 config) <= d_of config <= r3 config + r4 config.
Proof using assembles. apply assembly_broken_false in assembles. tauto. Qed.

Lemma valid_a_def :
  a_of config
  = (r3 config ^ 2 - r4 config ^ 2 + d_of config * d_of config) / (2 * d_of config).
Proof using Type. unfold a_of. rewrite d_of_sqr. reflexivity. Qed.

Lemma valid_radii_nonneg : 0 <= r3 config /\ 0 <= r4 config.
Proof using assembles.
  exact (radii_nonneg _ _ _ valid_d_pos valid_triangle).
Qed.

Lemma valid_h_sqr :
  h_of config * h_of config = r3 config ^ 2 - a_of config ^ 2.
Proof using assembles.
  exact (half_chord_sqr _ _ _ _ valid_d_pos valid_triangle valid_a_def).
Qed.

Lemma valid_unit : ux * ux + uy * uy = 1.
Proof using assembles.
  pose proof valid_d_pos as Hd.
  pose proof (d_of_sqr config) as Hs.
  unfold d2_of in Hs. subst ux uy.
  set (dx := x (B_star config) - x (jointA config)).
  set (dy := y (B_star config) - y (jointA config)).
  assert (dx * dx + dy * dy = d_of config * d_of config) as Hsum
    by (rewrite Hs; subst dx dy; ring).
  replace (dx / d_of config * (dx / d_of config) + dy / d_of config * (dy / d_of config))
    with ((dx * dx + dy * dy) / (d_of config * d_of config)) by (field; lra).
  rewrite Hsum. field. lra.
Qed.

(** The offsets of the two candidates from the centres of the circles. *)
Lemma candidate1_from_A :
  x (candidate1 config) - x (jointA config)
  = a_of config * ux + 1 * h_of config * uy
  /\ y (candidate1 config) - y (jointA config)
     = a_of config * uy - 1 * h_of config * ux.
Proof using Type.
  subst ux uy. unfold candidate1, midpoint. cbn [x y].
  split; unfold Rdiv; ring.
Qed.

Lemma candidate2_from_A :
  x (candidate2 config) - x (jointA config)
  = a_of config * ux + (-1) * h_of config * uy
  /\ y (candidate2 config) - y (jointA config)
     = a_of config * uy - (-1) * h_of config * ux.
Proof using Type.
  subst ux uy. unfold candidate2, midpoint. cbn [x y].
  split; unfold Rdiv; ring.
Qed.

Lemma candidate1_from_B_star :
  x (candidate1 config) - x (B_star config)
  = (a_of config - d_of config) * ux + 1 * h_of config * uy
  /\ y (candidate1 config) - y (B_star config)
     = (a_of config - d_of config) * uy - 1 * h_of config * ux.
Proof using assembles.
  pose proof valid_d_pos as Hd.
  subst ux uy. unfold candidate1, midpoint. cbn [x y].
  split; field; lra.
Qed.

Lemma candidate2_from_B_star :
  x (candidate2 config) - x (B_star config)
  = (a_of config - d_of config) * ux + (-1) * h_of config * uy
  /\ y (candidate2 config) - y (B_star config)
     = (a_of config - d_of config) * uy - (-1) * h_of config * ux.
Proof using assembles.
  pose proof valid_d_pos as Hd.
  subst ux uy. unfold candidate2, midpoint. cbn [x y].
  split; field; lra.
Qed.

Lemma candidate1_on_circles :
  dist (candidate1 config) (jointA config) = r3 config
  /\ dist (candidate1 config) (B_star config) = r4 config.
Proof using assembles.
  destruct valid_radii_nonneg as [H3 H4].
  destruct candidate1_from_A as [Ex Ey].
  destruct candidate1_from_B_star as [Fx Fy].
  unfold dist. rewrite Ex, Ey, Fx, Fy.
  rewrite (on_first_circle (r3 config) (a_of config) ux uy (h_of config)
             valid_unit valid_h_sqr 1) by ring.
  rewrite (on_second_circle (r3 config) (r4 config) (d_of config) (a_of config)
             valid_d_pos valid_a_def ux uy (h_of config)
             valid_unit valid_h_sqr 1) by ring.
  split; apply sqrt_pow2; assumption.
Qed.

Lemma candidate2_on_circles :
  dist (candidate2 config) (jointA config) = r3 config
  /\ dist (candidate2 config) (B_star config) = r4 config.
Proof using assembles.
  destruct valid_radii_nonneg as [H3 H4].
  destruct candidate2_from_A as [Ex Ey].
  destruct candidate2_from_B_star as [Fx Fy].
  unfold dist. rewrite Ex, Ey, Fx, Fy.
  rewrite (on_first_circle (r3 config) (a_of config) ux uy (h_of config)
             valid_unit valid_h_sqr (-1)) by ring.
  rewrite (on_second_circle (r3 config) (r4 config) (d_of config) (a_of config)
             valid_d_pos valid_a_def ux uy (h_of config)
             valid_unit valid_h_sqr (-1)) by ring.
  split; apply sqrt_pow2; assumption.
Qed.

Lemma jointB_cases (assemblyMode : AssemblyMode) :
  jointB config assemblyMode
  = match assemblyMode with
    | Plus1 => candidate1 config
    | Minus1 => candidate2 config
    end.
Proof using Type.
  destruct assemblyMode; unfold jointB; cbn [mode_value Z.eqb Pos.eqb];
    [destruct (candidate1 config) | destruct (candidate2 config)]; reflexivity.
Qed.

Lemma jointB_on_circles (assemblyMode : AssemblyMode) :
  dist (jointB config assemblyMode) (jointA config) = r3 config
  /\ dist (jointB config assemblyMode) (B_star config) = r4 config.
Proof using assembles.
  rewrite jointB_cases. destruct assemblyMode.
  - apply candidate1_on_circles.
  - apply candidate2_on_circles.
Qed.

End ValidConfiguration.

(** ** Driver angle zero *)

Lemma toRad_0 : toRad 0 = 0.
Proof. unfold toRad. field. Qed.

Lemma jointA_theta2_0 (config : LinkageConfig) :
  theta2 config = 0 -> jointA config = {| x := r2 config; y := 0 |}.
Proof.
  intro H. unfold jointA. rewrite H, toRad_0, cos_0, sin_0.
  f_equal; ring.
Qed.

Lemma d_of_theta2_0 (config : LinkageConfig) :
  theta2 config = 0 -> d_of config = Rabs (r2 config - r1 config).
Proof.
  intro H. unfold d_of, d2_of. rewrite (jointA_theta2_0 _ H). cbn [x y B_star].
  replace ((r2 config - r1 config) ^ 2 + (0 - 0) ^ 2)
    with (Rsqr (r2 config - r1 config)) by (unfold Rsqr; ring).
  apply sqrt_Rsqr_abs.
Qed.

Lemma d_of_initial_config : d_of initial_config = 1.
Proof.
  rewrite d_of_theta2_0 by reflexivity. cbn [r1 r2 initial_config].
  replace (2 - 1) with 1 by ring. apply Rabs_R1.
Qed.

Lemma d_of_unreachable_config : d_of unreachable_config = 9.
Proof.
  rewrite d_of_theta2_0 by reflexivity. cbn [r1 r2 unreachable_config].
  rewrite Rabs_minus_sym, Rabs_pos_eq by lra. lra.
Qed.

Lemma d_of_coincident_config : d_of coincident_config = 0.
Proof.
  rewrite d_of_theta2_0 by reflexivity. cbn [r1 r2 coincident_config].
  replace (1 - 1) with 0 by ring. apply Rabs_R0.
Qed.

Lemma initial_config_assembles : assembly_broken initial_config = false.
Proof.
  apply assembly_broken_false. rewrite d_of_initial_config.
  cbn [r3 r4 initial_config].
  rewrite Rabs_minus_sym, Rabs_pos_eq by lra. lra.
Qed.

Lemma unreachable_config_broken : assembly_broken unreachable_config = true.
Proof.
  apply assembly_broken_true. rewrite d_of_unreachable_config.
  cbn [r3 r4 unreachable_config]. lra.
Qed.

Lemma coincident_config_broken : assembly_broken coincident_config = true.
Proof.
  apply assembly_broken_true. rewrite d_of_coincident_config. lra.
Qed.

Lemma initial_config_valid (assemblyMode : AssemblyMode) :
  isValid (solveLinkage initial_config assemblyMode) = true.
Proof.
  rewrite isValid_solveLinkage, initial_config_assembles. reflexivity.
Qed.

Lemma unreachable_config_invalid (assemblyMode : AssemblyMode) :
  isValid (solveLinkage unreachable_config assemblyMode) = false.
Proof.
  rewrite isValid_solveLinkage, unreachable_config_broken. reflexivity.
Qed.

(** ** The reference mechanism at driver angles 0 and 90 *)

Lemma toRad_90 : toRad 90 = PI / 2.
Proof. unfold toRad. field. Qed.

Example jointA_initial_config : jointA initial_config = {| x := 2; y := 0 |}.
Proof. rewrite jointA_theta2_0 by reflexivity. reflexivity. Qed.

Example d2_of_initial_config : d2_of initial_config = 1.
Proof. rewrite <- d_of_sqr, d_of_initial_config. ring. Qed.

Example a_of_initial_config : a_of initial_config = - (11 / 8).
Proof.
  unfold a_of. rewrite d2_of_initial_config, d_of_initial_config.
  cbn [r3 r4 initial_config]. field.
Qed.

Example jointA_initial_config_90 :
  jointA initial_config_90 = {| x := 0; y := 2 |}.
Proof.
  unfold jointA. cbn [r2 theta2 initial_config_90].
  rewrite toRad_90, cos_PI2, sin_PI2. f_equal; ring.
Qed.

Example d_of_initial_config_90 : d_of initial_config_90 = sqrt 5.
Proof.
  unfold d_of, d2_of. rewrite jointA_initial_config_90.
  cbn [x y B_star r1 initial_config_90]. f_equal. ring.
Qed.

Example initial_config_90_assembles : assembly_broken initial_config_90 = false.
Proof.
  apply assembly_broken_false. rewrite d_of_initial_config_90.
  cbn [r3 r4 initial_config_90].
  rewrite Rabs_minus_sym, Rabs_pos_eq by lra.
  assert (1 < sqrt 5) as Hlo.
  { rewrite <- sqrt_1 at 1. apply sqrt_lt_1; lra. }
  assert (sqrt 5 < 3) as Hhi.
  { replace 3 with (sqrt 9).
    - apply sqrt_lt_1; lra.
    - replace 9 with (3 * 3) by ring. apply sqrt_square. lra. }
  lra.
Qed.

(** ** Circle membership *)

Lemma point_eta (p : Point) : {| x := x p; y := y p |} = p.
Proof. destruct p. reflexivity. Qed.

(** C1. Whenever [solveLinkage] returns a pose with [isValid = true], the
    returned joint B lies on both circles: its distance to the returned
    joint A is [r3] and its distance to the second fixed pivot [(r1, 0)] is
    [r4], exactly.  (No sign condition on the link lengths is needed: a
    configuration that passes the validity test has [r3, r4 >= 0].) *)
Theorem solveLinkage_circle_membership
    (config : LinkageConfig) (assemblyMode : AssemblyMode) :
  isValid (solveLinkage config assemblyMode) = true ->
  exists A B : Point,
    point_of (Ax (solveLinkage config assemblyMode))
             (Ay (solveLinkage config assemblyMode)) = Some A
    /\ point_of (Bx (solveLinkage config assemblyMode))
                (By (solveLinkage config assemblyMode)) = Some B
    /\ dist B A = r3 config
    /\ dist B {| x := r1 config; y := 0 |} = r4 config.
Proof.
  rewrite isValid_solveLinkage, solveLinkage_eq.
  destruct (assembly_broken config) eqn:Hbroken; [discriminate|].
  intros _. cbn [Ax Ay Bx By point_of].
  exists (jointA config), (jointB config assemblyMode).
  destruct (jointB_on_circles config Hbroken assemblyMode) as [H3 H4].
  rewrite !point_eta. repeat split; assumption.
Qed.

Lemma solveLinkage_circle_membership_witness :
  isValid (solveLinkage initial_config Plus1) = true
  /\ exists A B : Point,
       point_of (Ax (solveLinkage initial_config Plus1))
                (Ay (solveLinkage initial_config Plus1)) = Some A
       /\ point_of (Bx (solveLinkage initial_config Plus1))
                   (By (solveLinkage initial_config Plus1)) = Some B
       /\ dist B A = 7 / 2
       /\ dist B {| x := 1; y := 0 |} = 4.
Proof.
  split.
  - apply initial_config_valid.
  - apply (solveLinkage_circle_membership initial_config Plus1).
    apply initial_config_valid.
Defined.

(** ** The validity test *)

(** C2. [solveLinkage] returns [isValid = false] exactly when the validity
    test [|r3 - r4| <= d <= r3 + r4] and [d > 0] fails, [d] being the
    distance from the crank joint A to the second fixed pivot; in
    particular [d = 0] gives [isValid = false]. *)
Theorem solveLinkage_invalid_iff
    (config : LinkageConfig) (assemblyMode : AssemblyMode) :
  (isValid (solveLinkage config assemblyMode) = false
   <-> ~ circles_intersect config)
  /\ (dist {| x := r2 config * cos (toRad (theta2 config));
              y := r2 config * sin (toRad (theta2 config)) |}
           {| x := r1 config; y := 0 |} = 0 ->
      isValid (solveLinkage config assemblyMode) = false).
Proof.
  rewrite isValid_solveLinkage, negb_false_iff.
  split.
  - apply assembly_broken_true.
  - intro H0. apply assembly_broken_true.
    change (d_of config = 0) in H0. lra.
Qed.

Lemma solveLinkage_invalid_iff_witness :
  isValid (solveLinkage coincident_config Minus1) = false
  /\ ~ circles_intersect coincident_config.
Proof.
  assert (isValid (solveLinkage coincident_config Minus1) = false) as H.
  { apply (proj2 (solveLinkage_invalid_iff coincident_config Minus1)).
    exact d_of_coincident_config. }
  split.
  - exact H.
  - apply (proj1 (solveLinkage_invalid_iff coincident_config Minus1)). exact H.
Defined.

(** ** The pose returned for a mechanism that does not assemble *)

Lemma solveLinkage_crank_joint
    (config : LinkageConfig) (assemblyMode : AssemblyMode) :
  Ax (solveLinkage config assemblyMode) = Fin (x (jointA config))
  /\ Ay (solveLinkage config assemblyMode) = Fin (y (jointA config)).
Proof.
  rewrite solveLinkage_eq. destruct (assembly_broken config); split; reflexivity.
Qed.

Lemma solveLinkage_invalid_fields
    (config : LinkageConfig) (assemblyMode : AssemblyMode) :
  isValid (solveLinkage config assemblyMode) = false ->
  Bx (solveLinkage config assemblyMode) = NaN
  /\ By (solveLinkage config assemblyMode) = NaN
  /\ Cx (solveLinkage config assemblyMode) = NaN
  /\ Cy (solveLinkage config assemblyMode) = NaN
  /\ theta3 (solveLinkage config assemblyMode) = NaN
  /\ theta4 (solveLinkage config assemblyMode) = NaN.
Proof.
  rewrite solveLinkage_eq.
  destruct (assembly_broken config); cbn; [tauto | discriminate].
Qed.

(** C3, as stated, fails: at [r1 = 10], [r2 = r3 = r4 = 1], driver angle 0
    the pose is invalid, yet [Ax] is the finite number 1 and [Ay] is the
    finite number 0, so not every coordinate field is the sentinel. *)
Lemma invalid_pose_not_all_NaN :
  isValid (solveLinkage unreachable_config Plus1) = false
  /\ Ax (solveLinkage unreachable_config Plus1) = Fin 1
  /\ Ay (solveLinkage unreachable_config Plus1) = Fin 0
  /\ ~ (forall (config : LinkageConfig) (assemblyMode : AssemblyMode),
          isValid (solveLinkage config assemblyMode) = false ->
          Ax (solveLinkage config assemblyMode) = NaN
          /\ Ay (solveLinkage config assemblyMode) = NaN
          /\ Bx (solveLinkage config assemblyMode) = NaN
          /\ By (solveLinkage config assemblyMode) = NaN
          /\ Cx (solveLinkage config assemblyMode) = NaN
          /\ Cy (solveLinkage config assemblyMode) = NaN
          /\ theta3 (solveLinkage config assemblyMode) = NaN
          /\ theta4 (solveLinkage config assemblyMode) = NaN).
Proof.
  destruct (solveLinkage_crank_joint unreachable_config Plus1) as [HAx HAy].
  rewrite jointA_theta2_0 in HAx, HAy by reflexivity.
  cbn [x y r2 unreachable_config] in HAx, HAy.
  repeat split.
  - apply unreachable_config_invalid.
  - exact HAx.
  - exact HAy.
  - intro Hall.
    destruct (Hall unreachable_config Plus1 (unreachable_config_invalid Plus1))
      as [HNaN _].
    rewrite HAx in HNaN. discriminate.
Qed.

(** C3, amended. Whenever [solveLinkage] returns [isValid = false], the
    fields [Bx], [By], [Cx], [Cy], [theta3] and [theta4] are the
    not-a-number sentinel; [Ax] and [Ay] are not the sentinel. *)
Theorem solveLinkage_invalid_sentinels
    (config : LinkageConfig) (assemblyMode : AssemblyMode) :
  isValid (solveLinkage config assemblyMode) = false ->
  (Bx (solveLinkage config assemblyMode) = NaN
   /\ By (solveLinkage config assemblyMode) = NaN
   /\ Cx (solveLinkage config assemblyMode) = NaN
   /\ Cy (solveLinkage config assemblyMode) = NaN
   /\ theta3 (solveLinkage config assemblyMode) = NaN
   /\ theta4 (solveLinkage config assemblyMode) = NaN)
  /\ is_NaN (Ax (solveLinkage config assemblyMode)) = false
  /\ is_NaN (Ay (solveLinkage config assemblyMode)) = false.
Proof.
  intro Hinvalid. split.
  - apply solveLinkage_invalid_fields, Hinvalid.
  - destruct (solveLinkage_crank_joint config assemblyMode) as [-> ->].
    split; reflexivity.
Qed.

Lemma solveLinkage_invalid_sentinels_witness :
  isValid (solveLinkage unreachable_config Minus1) = false
  /\ (Bx (solveLinkage unreachable_config Minus1) = NaN
      /\ By (solveLinkage unreachable_config Minus1) = NaN
      /\ Cx (solveLinkage unreachable_config Minus1) = NaN
      /\ Cy (solveLinkage unreachable_config Minus1) = NaN
      /\ theta3 (solveLinkage unreachable_config Minus1) = NaN
      /\ theta4 (solveLinkage unreachable_config Minus1) = NaN)
  /\ is_NaN (Ax (solveLinkage unreachable_config Minus1)) = false
  /\ is_NaN (Ay (solveLinkage unreachable_config Minus1)) = false.
Proof.
  split.
  - apply unreachable_config_invalid.
  - apply (solveLinkage_invalid_sentinels unreachable_config Minus1).
    apply unreachable_config_invalid.
Defined.

(** C10. The fields [Ax] and [Ay] of the returned pose always hold the
    crank joint [(r2 cos theta2, r2 sin theta2)], also when the pose is
    invalid; on the invalid branch only [Bx], [By], [Cx], [Cy], [theta3]
    and [theta4] are the not-a-number sentinel. *)
Theorem solveLinkage_reports_crank_joint
    (config : LinkageConfig) (assemblyMode : AssemblyMode) :
  Ax (solveLinkage config assemblyMode)
  = Fin (r2 config * cos (toRad (theta2 config)))
  /\ Ay (solveLinkage config assemblyMode)
     = Fin (r2 config * sin (toRad (theta2 config)))
  /\ (isValid (solveLinkage config assemblyMode) = false ->
      Bx (solveLinkage config assemblyMode) = NaN
      /\ By (solveLinkage config assemblyMode) = NaN
      /\ Cx (solveLinkage config assemblyMode) = NaN
      /\ Cy (solveLinkage config assemblyMode) = NaN
      /\ theta3 (solveLinkage config assemblyMode) = NaN
      /\ theta4 (solveLinkage config assemblyMode) = NaN).
Proof.
  destruct (solveLinkage_crank_joint config assemblyMode) as [HAx HAy].
  repeat split; try assumption;
    apply solveLinkage_invalid_fields; assumption.
Qed.

Lemma solveLinkage_reports_crank_joint_witness :
  isValid (solveLinkage coincident_config Plus1) = false
  /\ Ax (solveLinkage coincident_config Plus1) = Fin (1 * cos (toRad 0))
  /\ Ay (solveLinkage coincident_config Plus1) = Fin (1 * sin (toRad 0))
  /\ Bx (solveLinkage coincident_config Plus1) = NaN.
Proof.
  assert (isValid (solveLinkage coincident_config Plus1) = false) as Hinvalid.
  { rewrite isValid_solveLinkage, coincident_config_broken. reflexivity. }
  destruct (solveLinkage_reports_crank_joint coincident_config Plus1)
    as (HAx & HAy & Hrest).
  repeat split.
  - exact Hinvalid.
  - exact HAx.
  - exact HAy.
  - apply (Hrest Hinvalid).
Defined.

(** ** Totality *)

Lemma guarded_div_defined (a b : R) :
  b <> 0 -> Guarded.div a b = Guarded.Returned (a / b).
Proof.
  intro Hb. unfold Guarded.div. destruct (Req_dec_T b 0); [contradiction | reflexivity].
Qed.

Lemma guarded_sqrt_defined (a : R) :
  0 <= a -> Guarded.sqrt a = Guarded.Returned (sqrt a).
Proof.
  intro Ha. unfold Guarded.sqrt. destruct (Rlt_dec a 0); [lra | reflexivity].
Qed.

Lemma guarded_toRad_defined (deg : R) :
  Guarded.toRad deg = Guarded.Returned (toRad deg).
Proof. apply guarded_div_defined. lra. Qed.

Lemma guarded_toDeg_defined (rad : R) :
  Guarded.toDeg rad = Guarded.Returned (toDeg rad).
Proof. apply guarded_div_defined. apply PI_neq0. Qed.

(** C5. [solveLinkage] is total: run with division and square root as
    partial operations, it raises no fault on any configuration with real
    fields and either assembly mode, and returns the pose computed by
    [solveLinkage]; every division by [d] is made with [d <> 0] and every
    square root is taken of a non-negative number.  It is deterministic:
    equal inputs give equal poses.  (The link lengths need not be
    positive.) *)
Theorem solveLinkage_total (config : LinkageConfig) (assemblyMode : AssemblyMode) :
  Guarded.solveLinkage config assemblyMode
  = Guarded.Returned (solveLinkage config assemblyMode)
  /\ (forall (config' : LinkageConfig) (assemblyMode' : AssemblyMode),
        config' = config -> assemblyMode' = assemblyMode ->
        solveLinkage config' assemblyMode' = solveLinkage config assemblyMode).
Proof.
  split; [| intros config' assemblyMode' -> ->; reflexivity].
  pose proof (d2_of_nonneg config) as Hd2.
  pose proof (assembly_broken_false config) as Hvalid.
  destruct config as [c1 c2 c3 c4 c6 cb ct].
  unfold Guarded.solveLinkage, solveLinkage.
  rewrite !guarded_toRad_defined. cbn [Guarded.bind].
  unfold d2_of, jointA, B_star in Hd2. cbn [x y r1 r2 theta2] in Hd2 |- *.
  rewrite (guarded_sqrt_defined _ Hd2). cbn [Guarded.bind].
  unfold assembly_broken, d_of, d2_of, jointA, B_star in Hvalid.
  cbn [x y r1 r2 r3 r4 theta2] in Hvalid.
  match goal with
  | |- context [if ?b then _ else _] => destruct b eqn:Hb
  end; [reflexivity|].
  assert (sqrt ((c2 * cos (toRad ct) - c1) ^ 2 + (c2 * sin (toRad ct) - 0) ^ 2) <> 0)
    as Hd by (destruct (proj1 Hvalid eq_refl) as [_ Hpos]; lra).
  rewrite guarded_div_defined by lra. cbn [Guarded.bind].
  rewrite guarded_sqrt_defined by apply Rmax_l. cbn [Guarded.bind].
  rewrite !(guarded_div_defined _ _ Hd). cbn [Guarded.bind].
  rewrite !guarded_toDeg_defined. cbn [Guarded.bind].
  reflexivity.
Qed.

Lemma solveLinkage_total_witness :
  Guarded.solveLinkage coincident_config Plus1
  = Guarded.Returned (solveLinkage coincident_config Plus1).
Proof.
  apply (proj1 (solveLinkage_total coincident_config Plus1)).
Defined.

(** ** Angle range

    The two lemmas below are about the exact functions of this model.  On
    IEEE doubles [Math.atan2] rounds an angle just above [- PI] to [- PI]
    itself, so that the code can return an angle of exactly -180 degrees;
    the open lower bound is a fact of real arithmetic only. *)

Lemma atan2_range (vy vx : R) : - PI < atan2 vy vx <= PI.
Proof.
  pose proof PI_RGT_0 as Hpi.
  pose proof (atan_bound (vy / vx)) as [Hlo Hhi].
  unfold atan2.
  destruct (Rlt_dec 0 vx) as [Hx|Hx]; [lra|].
  destruct (Rlt_dec vx 0) as [Hx'|Hx'].
  - destruct (Rle_dec 0 vy) as [Hy|Hy].
    + assert (atan (vy / vx) <= 0) as Hle.
      { rewrite <- atan_0.
        destruct (Req_dec_T vy 0) as [E|E].
        - rewrite E. unfold Rdiv. rewrite Rmult_0_l. lra.
        - left. apply atan_increasing.
          unfold Rdiv. apply Rmult_pos_neg; [lra|].
          apply Rinv_lt_0_compat, Hx'. }
      lra.
    + assert (0 < atan (vy / vx)) as Hlt.
      { rewrite <- atan_0. apply atan_increasing.
        unfold Rdiv. apply Rmult_neg_neg; [lra|].
        apply Rinv_lt_0_compat, Hx'. }
      lra.
  - destruct (Rlt_dec 0 vy); [lra|].
    destruct (Rlt_dec vy 0); lra.
Qed.

Lemma toDeg_range (rad : R) : - PI < rad <= PI -> -180 < toDeg rad <= 180.
Proof.
  intros [Hlo Hhi]. pose proof PI_RGT_0 as Hpi. unfold toDeg.
  split.
  - apply Rmult_lt_reg_r with PI; [exact Hpi|].
    replace (rad * 180 / PI * PI) with (rad * 180) by (field; lra). lra.
  - apply Rmult_le_reg_r with PI; [exact Hpi|].
    replace (rad * 180 / PI * PI) with (rad * 180) by (field; lra). lra.
Qed.

(** ** Circles that can never reach each other *)

Lemma d_of_lower_bound (config : LinkageConfig) :
  0 < r1 config -> 0 < r2 config -> r1 config - r2 config <= d_of config.
Proof.
  intros H1 H2.
  pose proof (d_of_nonneg config) as Hd.
  pose proof (d_of_sqr config) as Hs.
  unfold d2_of, jointA, B_star in Hs. cbn [x y] in Hs.
  set (t := toRad (theta2 config)) in Hs.
  pose proof (sin2_cos2 t) as Hsc. unfold Rsqr in Hsc.
  pose proof (COS_bound t) as [_ Hc].
  assert (d_of config * d_of config
          = (r1 config - r2 config) * (r1 config - r2 config)
            + 2 * (r1 config * r2 config) * (1 - cos t)) as Hd2.
  { rewrite Hs.
    replace ((r2 config * cos t - r1 config) ^ 2 + (r2 config * sin t - 0) ^ 2)
      with (r2 config * r2 config * (sin t * sin t + cos t * cos t)
            - 2 * (r1 config * r2 config) * cos t + r1 config * r1 config) by ring.
    rewrite Hsc. ring. }
  assert (0 <= 2 * (r1 config * r2 config) * (1 - cos t)) as Hnn.
  { apply Rmult_le_pos; [|lra].
    apply Rmult_le_pos; [lra|]. apply Rmult_le_pos; lra. }
  destruct (Rle_dec (r1 config - r2 config) (d_of config)) as [Hle|Hgt];
    [exact Hle|].
  exfalso. nra.
Qed.

(** C7. If [r1, r2, r3, r4 > 0] and [r3 + r4 < r1 - r2], then at every
    driver angle and in both assembly modes the distance [d] is at least
    [r1 - r2] and [solveLinkage] returns [isValid = false].  In particular,
    for [r1 = 10], [r2 = r3 = r4 = 1] at driver angle 0, [d = 9 > 2] and
    the pose is invalid in both modes. *)
Theorem unreachable_always_invalid :
  (forall (config : LinkageConfig) (t2 : R) (assemblyMode : AssemblyMode),
      0 < r1 config -> 0 < r2 config -> 0 < r3 config -> 0 < r4 config ->
      r3 config + r4 config < r1 config - r2 config ->
      r1 config - r2 config <= d_of (with_theta2 config t2)
      /\ isValid (solveLinkage (with_theta2 config t2) assemblyMode) = false)
  /\ (d_of unreachable_config = 9
      /\ 9 > r3 unreachable_config + r4 unreachable_config
      /\ forall assemblyMode : AssemblyMode,
           isValid (solveLinkage unreachable_config assemblyMode) = false).
Proof.
  split.
  - intros config t2 assemblyMode H1 H2 _ _ Hfar.
    pose proof (d_of_lower_bound (with_theta2 config t2) H1 H2) as Hlow.
    cbn [with_theta2 r1 r2] in Hlow.
    split; [exact Hlow|].
    rewrite isValid_solveLinkage, negb_false_iff.
    apply assembly_broken_true. cbn [with_theta2 r3 r4]. lra.
  - repeat split.
    + apply d_of_unreachable_config.
    + cbn [r3 r4 unreachable_config]. lra.
    + apply unreachable_config_invalid.
Qed.

Lemma unreachable_always_invalid_witness :
  (0 < 10 /\ 0 < 1 /\ 1 + 1 < 10 - 1)
  /\ 10 - 1 <= d_of (with_theta2 unreachable_config 90)
  /\ isValid (solveLinkage (with_theta2 unreachable_config 90) Plus1) = false.
Proof.
  split.
  - lra.
  - apply (proj1 unreachable_always_invalid unreachable_config 90 Plus1);
      cbn [r1 r2 r3 r4 unreachable_config]; lra.
Defined.

(** ** The two assembly branches *)

Section Branches.

Variable config : LinkageConfig.
Hypothesis assembles : assembly_broken config = false.

Lemma candidates_equal_iff :
  candidate1 config = candidate2 config <-> h_of config = 0.
Proof using assembles.
  pose proof (valid_d_pos config assembles) as Hd.
  pose proof (valid_unit config assembles) as Hu.
  set (ux := (x (B_star config) - x (jointA config)) / d_of config) in Hu.
  set (uy := (y (B_star config) - y (jointA config)) / d_of config) in Hu.
  assert (x (candidate1 config) - x (candidate2 config) = 2 * (h_of config * uy))
    as Hx by (subst uy; unfold candidate1, candidate2; cbn [x y]; unfold Rdiv; ring).
  assert (y (candidate1 config) - y (candidate2 config) = - (2 * (h_of config * ux)))
    as Hy by (subst ux; unfold candidate1, candidate2; cbn [x y]; unfold Rdiv; ring).
  split.
  - intro E. rewrite E in Hx, Hy.
    assert (h_of config * uy = 0) as Ey by lra.
    assert (h_of config * ux = 0) as Ex by lra.
    assert (h_of config * h_of config * (ux * ux + uy * uy) = 0) as Ez.
    { replace (h_of config * h_of config * (ux * ux + uy * uy))
        with (h_of config * ux * (h_of config * ux)
              + h_of config * uy * (h_of config * uy)) by ring.
      rewrite Ex, Ey. ring. }
    rewrite Hu, Rmult_1_r in Ez.
    apply Rmult_integral in Ez. tauto.
  - intro E. rewrite E in Hx, Hy.
    rewrite <- (point_eta (candidate1 config)), <- (point_eta (candidate2 config)).
    f_equal; lra.
Qed.

Lemma h_of_zero_iff :
  h_of config = 0
  <-> d_of config = r3 config + r4 config
      \/ d_of config = Rabs (r3 config - r4 config).
Proof using assembles.
  exact (half_chord_zero_iff _ _ _ _ (valid_d_pos config assembles)
           (valid_triangle config assembles) (valid_a_def config)).
Qed.

End Branches.

(** C8. At a configuration where both modes give a valid pose, the open
    mode (+1) and the crossed mode (-1) return the same [Ax], [Ay]; the
    open mode returns the first candidate for B and the crossed mode the
    second one, whatever the distances are; the two returned B coincide
    exactly when the half chord [h] is zero, that is exactly when
    [d = r3 + r4] or [d = |r3 - r4|]. *)
Theorem branch_symmetry (config : LinkageConfig) :
  isValid (solveLinkage config Plus1) = true ->
  isValid (solveLinkage config Minus1) = true ->
  Ax (solveLinkage config Plus1) = Ax (solveLinkage config Minus1)
  /\ Ay (solveLinkage config Plus1) = Ay (solveLinkage config Minus1)
  /\ point_of (Bx (solveLinkage config Plus1)) (By (solveLinkage config Plus1))
     = Some (candidate1 config)
  /\ point_of (Bx (solveLinkage config Minus1)) (By (solveLinkage config Minus1))
     = Some (candidate2 config)
  /\ (point_of (Bx (solveLinkage config Plus1)) (By (solveLinkage config Plus1))
      = point_of (Bx (solveLinkage config Minus1)) (By (solveLinkage config Minus1))
      <-> h_of config = 0)
  /\ (h_of config = 0
      <-> dist (jointA config) (B_star config) = r3 config + r4 config
          \/ dist (jointA config) (B_star config) = Rabs (r3 config - r4 config)).
Proof.
  rewrite !isValid_solveLinkage, !solveLinkage_eq.
  destruct (assembly_broken config) eqn:Hbroken; [discriminate|].
  intros _ _. cbn [Ax Ay Bx By point_of].
  rewrite !point_eta, !jointB_cases.
  repeat split; try reflexivity.
  - intro E. apply (candidates_equal_iff config Hbroken). congruence.
  - intro E. f_equal. apply (candidates_equal_iff config Hbroken), E.
  - apply (h_of_zero_iff config Hbroken).
  - apply (h_of_zero_iff config Hbroken).
Qed.

Lemma branch_symmetry_witness :
  isValid (solveLinkage initial_config Plus1) = true
  /\ isValid (solveLinkage initial_config Minus1) = true
  /\ Ax (solveLinkage initial_config Plus1) = Ax (solveLinkage initial_config Minus1)
  /\ Ay (solveLinkage initial_config Plus1) = Ay (solveLinkage initial_config Minus1)
  /\ point_of (Bx (solveLinkage initial_config Plus1))
              (By (solveLinkage initial_config Plus1))
     = Some (candidate1 initial_config)
  /\ point_of (Bx (solveLinkage initial_config Minus1))
              (By (solveLinkage initial_config Minus1))
     = Some (candidate2 initial_config)
  /\ (point_of (Bx (solveLinkage initial_config Plus1))
               (By (solveLinkage initial_config Plus1))
      = point_of (Bx (solveLinkage initial_config Minus1))
                 (By (solveLinkage initial_config Minus1))
      <-> h_of initial_config = 0)
  /\ (h_of initial_config = 0
      <-> dist (jointA initial_config) (B_star initial_config)
          = r3 initial_config + r4 initial_config
          \/ dist (jointA initial_config) (B_star initial_config)
             = Rabs (r3 initial_config - r4 initial_config)).
Proof.
  split; [apply initial_config_valid|].
  split; [apply initial_config_valid|].
  apply (branch_symmetry initial_config); apply initial_config_valid.
Defined.

(** ** The trajectory sampler *)

Lemma trajectory_loop_step (config : LinkageConfig) (assemblyMode : AssemblyMode)
    (t2 : Z) (data : list TrajectoryPoint.t)
    (calls : list (LinkageConfig * AssemblyMode)) :
  trajectory_loop config assemblyMode t2 data calls
  = if Z_le_gt_dec t2 360 then
      trajectory_loop config assemblyMode (t2 + 2)
        (if sample_valid config assemblyMode t2
         then data ++ [sample_point config assemblyMode t2] else data)
        (calls ++ [(with_theta2 config (IZR t2), assemblyMode)])
    else (data, calls).
Proof.
  etransitivity; [apply trajectory_loop_equation_1|].
  destruct (Z_le_gt_dec t2 360) as [Hle|Hgt]; cbn [trajectory_loop_unfold_clause_1].
  - cbv zeta. unfold sample_valid, sample_point. cbv zeta.
    destruct (isValid (solveLinkage (with_theta2 config (IZR t2)) assemblyMode));
      reflexivity.
  - reflexivity.
Qed.

Lemma trajectory_loop_spec (config : LinkageConfig) (assemblyMode : AssemblyMode)
    (n : nat) :
  forall (t2 : Z) (data : list TrajectoryPoint.t)
         (calls : list (LinkageConfig * AssemblyMode)),
    (t2 + 2 * Z.of_nat n = 362)%Z ->
    trajectory_loop config assemblyMode t2 data calls
    = (data ++ map (sample_point config assemblyMode)
                   (filter (sample_valid config assemblyMode) (angles_from t2 n)),
       calls ++ map (sample_call config assemblyMode) (angles_from t2 n)).
Proof.
  induction n as [|n IH]; intros t2 data calls Ht2;
    rewrite trajectory_loop_step;
    destruct (Z_le_gt_dec t2 360) as [Hle|Hgt]; try lia.
  - cbn [angles_from filter map]. rewrite !app_nil_r. reflexivity.
  - rewrite IH by lia.
    cbn [angles_from filter map].
    destruct (sample_valid config assemblyMode t2);
      cbn [map]; rewrite <- !app_assoc; reflexivity.
Qed.

Lemma sample_angles_from_0 : sample_angles = angles_from 0 181.
Proof. vm_compute. reflexivity. Qed.

Lemma computeTrajectory_eq (config : LinkageConfig) (assemblyMode : AssemblyMode) :
  computeTrajectory config assemblyMode
  = map (sample_point config assemblyMode)
        (filter (sample_valid config assemblyMode) sample_angles).
Proof.
  unfold computeTrajectory.
  rewrite (trajectory_loop_spec config assemblyMode 181) by reflexivity.
  rewrite sample_angles_from_0. reflexivity.
Qed.

Lemma computeTrajectory_calls_eq (config : LinkageConfig) (assemblyMode : AssemblyMode) :
  computeTrajectory_calls config assemblyMode
  = map (sample_call config assemblyMode) sample_angles.
Proof.
  unfold computeTrajectory_calls.
  rewrite (trajectory_loop_spec config assemblyMode 181) by reflexivity.
  rewrite sample_angles_from_0. reflexivity.
Qed.

Lemma sample_angles_nth (k : nat) :
  (k < 181)%nat -> nth k sample_angles 0%Z = (2 * Z.of_nat k)%Z.
Proof.
  intro Hk. unfold sample_angles.
  change 0%Z with ((fun j => (2 * Z.of_nat j)%Z) 0%nat) at 1.
  rewrite map_nth, seq_nth by exact Hk. reflexivity.
Qed.

Lemma angles_from_sorted (n : nat) :
  forall t2 : Z,
    StronglySorted Z.lt (angles_from t2 n)
    /\ Forall (fun u => (t2 <= u)%Z) (angles_from t2 n).
Proof.
  induction n as [|n IH]; intro t2; cbn [angles_from].
  - split; constructor.
  - destruct (IH (t2 + 2)%Z) as [Hs Hf]. split.
    + constructor; [exact Hs|].
      eapply Forall_impl; [|exact Hf]. cbn. intros u Hu. lia.
    + constructor; [lia|].
      eapply Forall_impl; [|exact Hf]. cbn. intros u Hu. lia.
Qed.

Lemma sample_points_sorted (config : LinkageConfig) (assemblyMode : AssemblyMode)
    (l : list Z) :
  StronglySorted Z.lt l ->
  StronglySorted theta2_lt
    (map (sample_point config assemblyMode)
         (filter (sample_valid config assemblyMode) l)).
Proof.
  induction 1 as [|a l Hs IH Hall]; cbn [filter map].
  - constructor.
  - destruct (sample_valid config assemblyMode a); [|exact IH].
    cbn [map]. constructor; [exact IH|].
    apply Forall_forall. intros p Hp.
    apply in_map_iff in Hp. destruct Hp as (u & <- & Hu).
    apply filter_In in Hu. destruct Hu as [Hu _].
    rewrite Forall_forall in Hall.
    unfold theta2_lt, sample_point. cbn.
    apply IZR_lt, Hall, Hu.
Qed.

(** C4. [computeTrajectory] invokes [solveLinkage] exactly 181 times, at
    the driver angles 0, 2, 4, ..., 360 in this order, each time on the
    configuration with [theta2] replaced by the sampled angle and every
    other field unchanged, and with the given mode.  The returned sequence
    consists, in strictly increasing [theta2] order, of exactly the samples
    the solver reported valid, each carrying the sampled angle and the
    solver's [theta3], [theta4], [Cx], [Cy]; invalid samples are dropped. *)
Theorem computeTrajectory_samples
    (config : LinkageConfig) (assemblyMode : AssemblyMode) :
  let sampled := fun t2 : Z =>
    {| r1 := r1 config; r2 := r2 config; r3 := r3 config; r4 := r4 config;
       r6 := r6 config; beta := beta config; theta2 := IZR t2 |} in
  computeTrajectory_calls config assemblyMode
  = map (fun t2 => (sampled t2, assemblyMode)) sample_angles
  /\ length (computeTrajectory_calls config assemblyMode) = 181%nat
  /\ length sample_angles = 181%nat
  /\ (forall k : nat,
        (k < 181)%nat -> nth k sample_angles 0%Z = (2 * Z.of_nat k)%Z)
  /\ map (fun call => theta2 (fst call))
         (computeTrajectory_calls config assemblyMode)
     = map IZR sample_angles
  /\ Forall (fun call =>
               r1 (fst call) = r1 config /\ r2 (fst call) = r2 config
               /\ r3 (fst call) = r3 config /\ r4 (fst call) = r4 config
               /\ r6 (fst call) = r6 config /\ beta (fst call) = beta config
               /\ snd call = assemblyMode)
            (computeTrajectory_calls config assemblyMode)
  /\ computeTrajectory config assemblyMode
     = map (fun t2 =>
              let sol := solveLinkage (sampled t2) assemblyMode in
              {| TrajectoryPoint.theta2 := Fin (IZR t2);
                 TrajectoryPoint.theta3 := theta3 sol;
                 TrajectoryPoint.theta4 := theta4 sol;
                 TrajectoryPoint.Cx := Cx sol;
                 TrajectoryPoint.Cy := Cy sol |})
           (filter (fun t2 => isValid (solveLinkage (sampled t2) assemblyMode))
                   sample_angles)
  /\ StronglySorted theta2_lt (computeTrajectory config assemblyMode).
Proof.
  cbv zeta.
  rewrite computeTrajectory_calls_eq, computeTrajectory_eq.
  split; [reflexivity|].
  split; [rewrite length_map; reflexivity|].
  split; [reflexivity|].
  split; [exact sample_angles_nth|].
  split; [rewrite map_map; apply map_ext; intro t2; reflexivity|].
  split; [|split; [reflexivity|]].
  - apply Forall_forall. intros call Hcall.
    apply in_map_iff in Hcall. destruct Hcall as (t2 & <- & _).
    cbn. repeat split.
  - apply sample_points_sorted.
    rewrite sample_angles_from_0. apply angles_from_sorted.
Qed.

Lemma computeTrajectory_samples_witness :
  nth 180 sample_angles 0%Z = 360%Z
  /\ length (computeTrajectory_calls initial_config Plus1) = 181%nat
  /\ map (fun call => theta2 (fst call))
         (computeTrajectory_calls initial_config Plus1)
     = map IZR sample_angles
  /\ Forall (fun call => r3 (fst call) = 7 / 2 /\ snd call = Plus1)
            (computeTrajectory_calls initial_config Plus1).
Proof.
  pose proof (computeTrajectory_samples initial_config Plus1) as H.
  cbv zeta in H.
  destruct H as (_ & Hlen & _ & Hnth & Htheta2 & Hframe & _).
  split; [apply (Hnth 180%nat); lia|].
  split; [exact Hlen|].
  split; [exact Htheta2|].
  eapply Forall_impl; [|exact Hframe].
  intros call (_ & _ & H3 & _ & _ & _ & Hmode). split; assumption.
Defined.

(** ** Independence of the driver angle *)

Lemma with_theta2_same_geometry (config config' : LinkageConfig) (t : R) :
  same_geometry config config' -> with_theta2 config t = with_theta2 config' t.
Proof.
  intros (H1 & H2 & H3 & H4 & H6 & Hb). unfold with_theta2.
  rewrite H1, H2, H3, H4, H6, Hb. reflexivity.
Qed.

(** C9. [computeTrajectory] is deterministic, and its result does not
    depend on the [theta2] field of its argument: two configurations that
    agree on [r1], [r2], [r3], [r4], [r6] and [beta] give, for the same
    mode, the same ordered sequence; equal inputs give equal sequences. *)
Theorem computeTrajectory_ignores_theta2 :
  (forall (config config' : LinkageConfig) (assemblyMode : AssemblyMode),
      r1 config = r1 config' -> r2 config = r2 config' ->
      r3 config = r3 config' -> r4 config = r4 config' ->
      r6 config = r6 config' -> beta config = beta config' ->
      computeTrajectory config assemblyMode
      = computeTrajectory config' assemblyMode)
  /\ (forall (config config' : LinkageConfig)
             (assemblyMode assemblyMode' : AssemblyMode),
        config = config' -> assemblyMode = assemblyMode' ->
        computeTrajectory config assemblyMode
        = computeTrajectory config' assemblyMode').
Proof.
  split.
  - intros config config' assemblyMode H1 H2 H3 H4 H6 Hb.
    assert (same_geometry config config') as Hsame by (repeat split; assumption).
    rewrite !computeTrajectory_eq.
    rewrite (filter_ext (sample_valid config assemblyMode)
                        (sample_valid config' assemblyMode)).
    + apply map_ext. intro t2. unfold sample_point.
      rewrite (with_theta2_same_geometry config config' _ Hsame). reflexivity.
    + intro t2. unfold sample_valid.
      rewrite (with_theta2_same_geometry config config' _ Hsame). reflexivity.
  - intros config config' assemblyMode assemblyMode' -> ->. reflexivity.
Qed.

Lemma computeTrajectory_ignores_theta2_witness :
  theta2 initial_config <> theta2 initial_config_90
  /\ computeTrajectory initial_config Plus1
     = computeTrajectory initial_config_90 Plus1.
Proof.
  split.
  - cbn [theta2 initial_config initial_config_90]. lra.
  - apply (proj1 computeTrajectory_ignores_theta2 initial_config initial_config_90 Plus1);
      reflexivity.
Defined.

(** * Further properties of the solver *)

(** ** Degrees and radians *)

Lemma toRad_toDeg (v : R) : toRad (toDeg v) = v.
Proof. unfold toDeg, toRad. field. apply PI_neq0. Qed.

(** X1. [toDeg] and [toRad] are inverse to each other. *)
Theorem toDeg_toRad_inverse (v : R) :
  toDeg (toRad v) = v /\ toRad (toDeg v) = v.
Proof.
  pose proof PI_neq0 as Hpi. unfold toDeg, toRad. split; field; exact Hpi.
Qed.

(** ** The angle returned by [atan2] *)

Lemma sqrt_sum_squares_factor (vx vy : R) :
  vx <> 0 ->
  sqrt (vx ^ 2 + vy ^ 2) = Rabs vx * sqrt (1 + (vy / vx)²).
Proof.
  intro Hx.
  replace (vx ^ 2 + vy ^ 2) with (vx² * (1 + (vy / vx)²))
    by (unfold Rsqr; field; exact Hx).
  rewrite sqrt_mult_alt by apply Rle_0_sqr.
  rewrite sqrt_Rsqr_abs. reflexivity.
Qed.

Lemma sqrt_one_plus_sqr_pos (t : R) : 0 < sqrt (1 + t²).
Proof.
  apply sqrt_lt_R0. pose proof (Rle_0_sqr t). lra.
Qed.

(** [atan2 vy vx] is a polar angle of the vector [(vx, vy)]. *)
Lemma atan2_polar (vy vx : R) :
  vx = sqrt (vx ^ 2 + vy ^ 2) * cos (atan2 vy vx)
  /\ vy = sqrt (vx ^ 2 + vy ^ 2) * sin (atan2 vy vx).
Proof.
  unfold atan2.
  destruct (Rlt_dec 0 vx) as [Hx|Hx].
  - pose proof (sqrt_one_plus_sqr_pos (vy / vx)) as Hs.
    rewrite sqrt_sum_squares_factor by lra.
    rewrite Rabs_pos_eq by lra.
    rewrite cos_atan, sin_atan. split; field; lra.
  - destruct (Rlt_dec vx 0) as [Hx'|Hx'].
    + pose proof (sqrt_one_plus_sqr_pos (vy / vx)) as Hs.
      rewrite sqrt_sum_squares_factor by lra.
      rewrite Rabs_left by lra.
      destruct (Rle_dec 0 vy) as [Hy|Hy].
      * rewrite neg_cos, neg_sin, cos_atan, sin_atan. split; field; lra.
      * replace (atan (vy / vx) - PI) with (- (PI - atan (vy / vx))) by ring.
        rewrite cos_neg, sin_neg.
        replace (PI - atan (vy / vx)) with (- atan (vy / vx) + PI) by ring.
        rewrite neg_cos, neg_sin, cos_neg, sin_neg, cos_atan, sin_atan.
        split; field; lra.
    + assert (vx = 0) as -> by lra.
      replace (0 ^ 2 + vy ^ 2) with (vy²) by (unfold Rsqr; ring).
      rewrite sqrt_Rsqr_abs.
      destruct (Rlt_dec 0 vy) as [Hy|Hy].
      * rewrite Rabs_pos_eq by lra. rewrite cos_PI2, sin_PI2. split; ring.
      * destruct (Rlt_dec vy 0) as [Hy'|Hy'].
        -- rewrite Rabs_left by lra.
           rewrite cos_neg, sin_neg, cos_PI2, sin_PI2. split; ring.
        -- assert (vy = 0) as -> by lra.
           rewrite Rabs_R0. split; ring.
Qed.

(** ** The vector loop *)

Lemma jointB_polar (config : LinkageConfig) (assemblyMode : AssemblyMode) :
  assembly_broken config = false ->
  x (jointB config assemblyMode)
  = x (jointA config) + r3 config * cos (theta3Rad_of config assemblyMode)
  /\ y (jointB config assemblyMode)
     = y (jointA config) + r3 config * sin (theta3Rad_of config assemblyMode)
  /\ x (jointB config assemblyMode)
     = x (B_star config) + r4 config * cos (theta4Rad_of config assemblyMode)
  /\ y (jointB config assemblyMode)
     = y (B_star config) + r4 config * sin (theta4Rad_of config assemblyMode).
Proof.
  intro Hvalid.
  destruct (jointB_on_circles config Hvalid assemblyMode) as [H3 H4].
  unfold dist in H3, H4.
  unfold theta3Rad_of, theta4Rad_of.
  destruct (atan2_polar (y (jointB config assemblyMode) - y (jointA config))
                        (x (jointB config assemblyMode) - x (jointA config)))
    as [Ex3 Ey3].
  destruct (atan2_polar (y (jointB config assemblyMode) - y (B_star config))
                        (x (jointB config assemblyMode) - x (B_star config)))
    as [Ex4 Ey4].
  rewrite H3 in Ex3, Ey3. rewrite H4 in Ex4, Ey4.
  repeat split; lra.
Qed.

(** X2. For a valid pose the returned angles close the vector loop of the
    mechanism: B is at distance [r3] from A in direction [theta3] and at
    distance [r4] from the second fixed pivot in direction [theta4], so
    [r2 e^(i theta2) + r3 e^(i theta3) = r1 + r4 e^(i theta4)]. *)
Theorem solveLinkage_vector_loop
    (config : LinkageConfig) (assemblyMode : AssemblyMode) :
  isValid (solveLinkage config assemblyMode) = true ->
  exists t3 t4 bx by_ : R,
    theta3 (solveLinkage config assemblyMode) = Fin t3
    /\ theta4 (solveLinkage config assemblyMode) = Fin t4
    /\ Bx (solveLinkage config assemblyMode) = Fin bx
    /\ By (solveLinkage config assemblyMode) = Fin by_
    /\ bx = r2 config * cos (toRad (theta2 config)) + r3 config * cos (toRad t3)
    /\ by_ = r2 config * sin (toRad (theta2 config)) + r3 config * sin (toRad t3)
    /\ bx = r1 config + r4 config * cos (toRad t4)
    /\ by_ = r4 config * sin (toRad t4)
    /\ r2 config * cos (toRad (theta2 config)) + r3 config * cos (toRad t3)
       = r1 config + r4 config * cos (toRad t4)
    /\ r2 config * sin (toRad (theta2 config)) + r3 config * sin (toRad t3)
       = r4 config * sin (toRad t4).
Proof.
  rewrite isValid_solveLinkage, solveLinkage_eq.
  destruct (assembly_broken config) eqn:Hbroken; [discriminate|].
  intros _. cbn [theta3 theta4 Bx By].
  destruct (jointB_polar config assemblyMode Hbroken) as (E1 & E2 & E3 & E4).
  cbn [x y jointA B_star] in E1, E2, E3, E4.
  exists (toDeg (theta3Rad_of config assemblyMode)),
         (toDeg (theta4Rad_of config assemblyMode)),
         (x (jointB config assemblyMode)), (y (jointB config assemblyMode)).
  rewrite !toRad_toDeg.
  repeat split; lra.
Qed.

Lemma solveLinkage_vector_loop_witness :
  isValid (solveLinkage initial_config Plus1) = true
  /\ exists t3 t4 bx by_ : R,
       theta3 (solveLinkage initial_config Plus1) = Fin t3
       /\ theta4 (solveLinkage initial_config Plus1) = Fin t4
       /\ Bx (solveLinkage initial_config Plus1) = Fin bx
       /\ By (solveLinkage initial_config Plus1) = Fin by_
       /\ bx = 2 * cos (toRad 0) + 7 / 2 * cos (toRad t3)
       /\ by_ = 2 * sin (toRad 0) + 7 / 2 * sin (toRad t3)
       /\ bx = 1 + 4 * cos (toRad t4)
       /\ by_ = 4 * sin (toRad t4)
       /\ 2 * cos (toRad 0) + 7 / 2 * cos (toRad t3) = 1 + 4 * cos (toRad t4)
       /\ 2 * sin (toRad 0) + 7 / 2 * sin (toRad t3) = 4 * sin (toRad t4).
Proof.
  split.
  - apply initial_config_valid.
  - apply (solveLinkage_vector_loop initial_config Plus1).
    apply initial_config_valid.
Defined.

(** ** The coupler point *)

Lemma jointC_from_A (config : LinkageConfig) (assemblyMode : AssemblyMode) :
  x (jointC config assemblyMode) - x (jointA config)
  = r6 config * cos (theta3Rad_of config assemblyMode + toRad (beta config))
  /\ y (jointC config assemblyMode) - y (jointA config)
     = r6 config * sin (theta3Rad_of config assemblyMode + toRad (beta config)).
Proof. unfold jointC. cbn [x y]. split; ring. Qed.

Lemma sqr_cos_sin (c s : R) (k : R) :
  s * s + c * c = 1 -> (k * c) ^ 2 + (k * s) ^ 2 = k².
Proof. intro H. unfold Rsqr. nra. Qed.

(** X3. For a valid pose the coupler triangle A, B, C is rigid: C is at
    distance [|r6|] from A, and its distance to B is given by the law of
    cosines from [r3], [r6] and [beta] alone, whatever the driver angle and
    the assembly mode are. *)
Theorem coupler_triangle_rigid
    (config : LinkageConfig) (assemblyMode : AssemblyMode) :
  isValid (solveLinkage config assemblyMode) = true ->
  exists A B C : Point,
    point_of (Ax (solveLinkage config assemblyMode))
             (Ay (solveLinkage config assemblyMode)) = Some A
    /\ point_of (Bx (solveLinkage config assemblyMode))
                (By (solveLinkage config assemblyMode)) = Some B
    /\ point_of (Cx (solveLinkage config assemblyMode))
                (Cy (solveLinkage config assemblyMode)) = Some C
    /\ dist C A = Rabs (r6 config)
    /\ dist C B
       = sqrt (r3 config ^ 2 + r6 config ^ 2
               - 2 * r3 config * r6 config * cos (toRad (beta config))).
Proof.
  rewrite isValid_solveLinkage, solveLinkage_eq.
  destruct (assembly_broken config) eqn:Hbroken; [discriminate|].
  intros _. cbn [Ax Ay Bx By Cx Cy point_of].
  exists (jointA config), (jointB config assemblyMode), (jointC config assemblyMode).
  rewrite !point_eta.
  destruct (jointC_from_A config assemblyMode) as [Cx_ Cy_].
  destruct (jointB_polar config assemblyMode Hbroken) as (Bx_ & By_ & _ & _).
  set (t := theta3Rad_of config assemblyMode) in *.
  set (b := toRad (beta config)) in *.
  pose proof (sin2_cos2 (t + b)) as Hu. unfold Rsqr in Hu.
  pose proof (sin2_cos2 t) as Ht. unfold Rsqr in Ht.
  repeat split.
  - unfold dist. rewrite Cx_, Cy_, (sqr_cos_sin _ _ _ Hu).
    apply sqrt_Rsqr_abs.
  - unfold dist. f_equal.
    replace (x (jointC config assemblyMode) - x (jointB config assemblyMode))
      with (r6 config * cos (t + b) - r3 config * cos t) by lra.
    replace (y (jointC config assemblyMode) - y (jointB config assemblyMode))
      with (r6 config * sin (t + b) - r3 config * sin t) by lra.
    replace b with ((t + b) - t) at 3 by ring.
    rewrite cos_minus. nra.
Qed.

Lemma coupler_triangle_rigid_witness :
  isValid (solveLinkage initial_config Minus1) = true
  /\ exists A B C : Point,
       point_of (Ax (solveLinkage initial_config Minus1))
                (Ay (solveLinkage initial_config Minus1)) = Some A
       /\ point_of (Bx (solveLinkage initial_config Minus1))
                   (By (solveLinkage initial_config Minus1)) = Some B
       /\ point_of (Cx (solveLinkage initial_config Minus1))
                   (Cy (solveLinkage initial_config Minus1)) = Some C
       /\ dist C A = Rabs (r6 initial_config)
       /\ dist C B
          = sqrt (r3 initial_config ^ 2 + r6 initial_config ^ 2
                  - 2 * r3 initial_config * r6 initial_config
                    * cos (toRad (beta initial_config))).
Proof.
  split.
  - apply initial_config_valid.
  - apply (coupler_triangle_rigid initial_config Minus1).
    apply initial_config_valid.
Defined.

(** ** Toggling the assembly mode *)

(** X8. [onToggleMode] is an involution that flips the reported mode name and
    changes neither the validity of the pose nor the crank joint. *)
Theorem toggleMode_keeps_validity
    (config : LinkageConfig) (assemblyMode : AssemblyMode) :
  toggleMode (toggleMode assemblyMode) = assemblyMode
  /\ toggleMode assemblyMode <> assemblyMode
  /\ mode (solveLinkage config (toggleMode assemblyMode))
     <> mode (solveLinkage config assemblyMode)
  /\ isValid (solveLinkage config (toggleMode assemblyMode))
     = isValid (solveLinkage config assemblyMode)
  /\ Ax (solveLinkage config (toggleMode assemblyMode))
     = Ax (solveLinkage config assemblyMode)
  /\ Ay (solveLinkage config (toggleMode assemblyMode))
     = Ay (solveLinkage config assemblyMode).
Proof.
  rewrite !isValid_solveLinkage, !solveLinkage_eq.
  destruct (assembly_broken config), assemblyMode; cbn;
    repeat split; discriminate.
Qed.

(** ** Mirror symmetry about the ground line *)

Lemma toRad_opp (t : R) : toRad (- t) = - toRad t.
Proof. unfold toRad. field. Qed.

Section Mirror.

Variable config : LinkageConfig.

Let mirrored : LinkageConfig := with_theta2 config (- theta2 config).

Lemma jointA_mirrored :
  x (jointA mirrored) = x (jointA config)
  /\ y (jointA mirrored) = - y (jointA config).
Proof using Type.
  unfold jointA, mirrored. cbn [x y with_theta2 r2 theta2].
  rewrite toRad_opp, cos_neg, sin_neg. split; ring.
Qed.

Lemma d2_of_mirrored : d2_of mirrored = d2_of config.
Proof using Type.
  destruct jointA_mirrored as [Ex Ey].
  unfold d2_of. rewrite Ex, Ey.
  unfold B_star, mirrored. cbn [x y with_theta2 r1]. ring.
Qed.

Lemma d_of_mirrored : d_of mirrored = d_of config.
Proof using Type. unfold d_of. rewrite d2_of_mirrored. reflexivity. Qed.

Lemma assembly_broken_mirrored :
  assembly_broken mirrored = assembly_broken config.
Proof using Type.
  unfold assembly_broken. rewrite d_of_mirrored. reflexivity.
Qed.

Lemma a_of_mirrored : a_of mirrored = a_of config.
Proof using Type.
  unfold a_of. rewrite d2_of_mirrored, d_of_mirrored. reflexivity.
Qed.

Lemma h_of_mirrored : h_of mirrored = h_of config.
Proof using Type.
  unfold h_of. rewrite a_of_mirrored. reflexivity.
Qed.

Lemma candidates_mirrored :
  x (candidate1 mirrored) = x (candidate2 config)
  /\ y (candidate1 mirrored) = - y (candidate2 config)
  /\ x (candidate2 mirrored) = x (candidate1 config)
  /\ y (candidate2 mirrored) = - y (candidate1 config).
Proof using Type.
  destruct jointA_mirrored as [Ex Ey].
  unfold candidate1, candidate2, midpoint. cbn [x y].
  rewrite h_of_mirrored, a_of_mirrored, d_of_mirrored, Ex, Ey.
  unfold B_star, mirrored. cbn [x y with_theta2 r1].
  repeat split; unfold Rdiv; ring.
Qed.

End Mirror.

(** X6. Reflecting the driver angle about the ground line and switching the
    assembly mode reflects the mechanism: the pose at [- theta2] in the
    other mode is valid exactly when the pose at [theta2] is, and then has
    the same [Ax] and [Bx] and the opposite [Ay] and [By]. *)
Theorem solveLinkage_mirror
    (config : LinkageConfig) (assemblyMode : AssemblyMode) :
  isValid (solveLinkage (with_theta2 config (- theta2 config))
                        (toggleMode assemblyMode))
  = isValid (solveLinkage config assemblyMode)
  /\ (isValid (solveLinkage config assemblyMode) = true ->
      exists ax ay bx by_ : R,
        Ax (solveLinkage config assemblyMode) = Fin ax
        /\ Ay (solveLinkage config assemblyMode) = Fin ay
        /\ Bx (solveLinkage config assemblyMode) = Fin bx
        /\ By (solveLinkage config assemblyMode) = Fin by_
        /\ Ax (solveLinkage (with_theta2 config (- theta2 config))
                            (toggleMode assemblyMode)) = Fin ax
        /\ Ay (solveLinkage (with_theta2 config (- theta2 config))
                            (toggleMode assemblyMode)) = Fin (- ay)
        /\ Bx (solveLinkage (with_theta2 config (- theta2 config))
                            (toggleMode assemblyMode)) = Fin bx
        /\ By (solveLinkage (with_theta2 config (- theta2 config))
                            (toggleMode assemblyMode)) = Fin (- by_)).
Proof.
  rewrite !isValid_solveLinkage, !solveLinkage_eq, assembly_broken_mirrored.
  split; [reflexivity|].
  destruct (assembly_broken config); [discriminate|].
  intros _. cbn [Ax Ay Bx By].
  destruct (jointA_mirrored config) as [EAx EAy].
  destruct (candidates_mirrored config) as (E1x & E1y & E2x & E2y).
  exists (x (jointA config)), (y (jointA config)),
         (x (jointB config assemblyMode)), (y (jointB config assemblyMode)).
  rewrite EAx, EAy, !jointB_cases.
  destruct assemblyMode; cbn [toggleMode mode_value Z.eqb Pos.eqb];
    rewrite ?E1x, ?E1y, ?E2x, ?E2y; repeat split.
Qed.

Lemma solveLinkage_mirror_witness :
  isValid (solveLinkage initial_config_90 Plus1) = true
  /\ exists ax ay bx by_ : R,
       Ax (solveLinkage initial_config_90 Plus1) = Fin ax
       /\ Ay (solveLinkage initial_config_90 Plus1) = Fin ay
       /\ Bx (solveLinkage initial_config_90 Plus1) = Fin bx
       /\ By (solveLinkage initial_config_90 Plus1) = Fin by_
       /\ Ax (solveLinkage (with_theta2 initial_config_90 (- 90)) Minus1) = Fin ax
       /\ Ay (solveLinkage (with_theta2 initial_config_90 (- 90)) Minus1)
          = Fin (- ay)
       /\ Bx (solveLinkage (with_theta2 initial_config_90 (- 90)) Minus1) = Fin bx
       /\ By (solveLinkage (with_theta2 initial_config_90 (- 90)) Minus1)
          = Fin (- by_).
Proof.
  assert (isValid (solveLinkage initial_config_90 Plus1) = true) as Hvalid.
  { rewrite isValid_solveLinkage, initial_config_90_assembles. reflexivity. }
  split.
  - exact Hvalid.
  - apply (proj2 (solveLinkage_mirror initial_config_90 Plus1)). exact Hvalid.
Defined.

(** ** The range of the distance [d] over a turn of the crank *)

Lemma d_of_expand (config : LinkageConfig) :
  d_of config * d_of config
  = r1 config * r1 config + r2 config * r2 config
    - 2 * (r1 config * r2 config) * cos (toRad (theta2 config)).
Proof.
  rewrite d_of_sqr. unfold d2_of, jointA, B_star. cbn [x y].
  pose proof (sin2_cos2 (toRad (theta2 config))) as Hsc. unfold Rsqr in Hsc.
  nra.
Qed.

Lemma d_of_bounds (config : LinkageConfig) :
  0 < r1 config -> 0 < r2 config ->
  Rabs (r1 config - r2 config) <= d_of config <= r1 config + r2 config.
Proof.
  intros H1 H2.
  pose proof (d_of_nonneg config) as Hd.
  pose proof (d_of_expand config) as He.
  pose proof (COS_bound (toRad (theta2 config))) as [Hlo Hhi].
  assert (0 < r1 config * r2 config) as H12 by (apply Rmult_lt_0_compat; assumption).
  split.
  - apply Rabs_le. split; nra.
  - nra.
Qed.

Lemma full_rotation_assembles (config : LinkageConfig) :
  0 < r1 config -> 0 < r2 config -> r1 config <> r2 config ->
  Rabs (r3 config - r4 config) <= Rabs (r1 config - r2 config) ->
  r1 config + r2 config <= r3 config + r4 config ->
  assembly_broken config = false.
Proof.
  intros H1 H2 Hne Hlo Hhi.
  destruct (d_of_bounds config H1 H2) as [Hdlo Hdhi].
  assert (0 < Rabs (r1 config - r2 config)) as Hpos
    by (apply Rabs_pos_lt; lra).
  apply assembly_broken_false. lra.
Qed.

(** X9. If [r1, r2 > 0], [r1 <> r2], [|r3 - r4| <= |r1 - r2|] and
    [r1 + r2 <= r3 + r4], the crank can make a full turn: the pose is valid
    at every driver angle, in both modes. *)
Theorem crank_rotates_fully
    (config : LinkageConfig) (t : R) (assemblyMode : AssemblyMode) :
  0 < r1 config -> 0 < r2 config -> r1 config <> r2 config ->
  Rabs (r3 config - r4 config) <= Rabs (r1 config - r2 config) ->
  r1 config + r2 config <= r3 config + r4 config ->
  isValid (solveLinkage (with_theta2 config t) assemblyMode) = true.
Proof.
  intros H1 H2 Hne Hlo Hhi.
  rewrite isValid_solveLinkage,
    (full_rotation_assembles (with_theta2 config t) H1 H2 Hne Hlo Hhi).
  reflexivity.
Qed.

Lemma initial_config_rotates :
  0 < r1 initial_config /\ 0 < r2 initial_config
  /\ r1 initial_config <> r2 initial_config
  /\ Rabs (r3 initial_config - r4 initial_config)
     <= Rabs (r1 initial_config - r2 initial_config)
  /\ r1 initial_config + r2 initial_config
     <= r3 initial_config + r4 initial_config.
Proof.
  cbn [r1 r2 r3 r4 initial_config].
  rewrite (Rabs_minus_sym (7 / 2)), (Rabs_minus_sym 1), !Rabs_pos_eq by lra.
  repeat split; lra.
Qed.

Lemma crank_rotates_fully_witness :
  isValid (solveLinkage (with_theta2 initial_config 123) Minus1) = true.
Proof.
  destruct initial_config_rotates as (H1 & H2 & Hne & Hlo & Hhi).
  exact (crank_rotates_fully initial_config 123 Minus1 H1 H2 Hne Hlo Hhi).
Defined.

(** ** Further properties of the trajectory sampler *)

Lemma filter_all_true {A : Type} (f : A -> bool) (l : list A) :
  (forall a, f a = true) -> filter f l = l.
Proof.
  intro Hf. induction l as [|a l IH]; cbn [filter]; [reflexivity|].
  rewrite Hf, IH. reflexivity.
Qed.

Lemma filter_all_false {A : Type} (f : A -> bool) (l : list A) :
  (forall a, f a = false) -> filter f l = [].
Proof.
  intro Hf. induction l as [|a l IH]; cbn [filter]; [reflexivity|].
  rewrite Hf, IH. reflexivity.
Qed.

(** X10. When the crank can make a full turn, no sample is dropped: the
    trajectory has the 181 points of the driver angles 0, 2, ..., 360. *)
Theorem computeTrajectory_complete
    (config : LinkageConfig) (assemblyMode : AssemblyMode) :
  0 < r1 config -> 0 < r2 config -> r1 config <> r2 config ->
  Rabs (r3 config - r4 config) <= Rabs (r1 config - r2 config) ->
  r1 config + r2 config <= r3 config + r4 config ->
  length (computeTrajectory config assemblyMode) = 181%nat
  /\ map TrajectoryPoint.theta2 (computeTrajectory config assemblyMode)
     = map (fun t2 => Fin (IZR t2)) sample_angles.
Proof.
  intros H1 H2 Hne Hlo Hhi.
  rewrite computeTrajectory_eq.
  rewrite filter_all_true.
  - rewrite length_map, map_map. split; reflexivity.
  - intro t2. unfold sample_valid.
    rewrite isValid_solveLinkage,
      (full_rotation_assembles (with_theta2 config (IZR t2)) H1 H2 Hne Hlo Hhi).
    reflexivity.
Qed.

Lemma computeTrajectory_complete_witness :
  length (computeTrajectory initial_config Plus1) = 181%nat
  /\ map TrajectoryPoint.theta2 (computeTrajectory initial_config Plus1)
     = map (fun t2 => Fin (IZR t2)) sample_angles.
Proof.
  destruct initial_config_rotates as (H1 & H2 & Hne & Hlo & Hhi).
  exact (computeTrajectory_complete initial_config Plus1 H1 H2 Hne Hlo Hhi).
Defined.

(** X11. When the circles can never reach each other ([r1, r2 > 0] and
    [r3 + r4 < r1 - r2]), every sample is dropped and the trajectory is the
    empty sequence. *)
Theorem computeTrajectory_empty
    (config : LinkageConfig) (assemblyMode : AssemblyMode) :
  0 < r1 config -> 0 < r2 config ->
  r3 config + r4 config < r1 config - r2 config ->
  computeTrajectory config assemblyMode = [].
Proof.
  intros H1 H2 Hfar.
  rewrite computeTrajectory_eq, filter_all_false; [reflexivity|].
  intro t2. unfold sample_valid.
  rewrite isValid_solveLinkage, negb_false_iff.
  apply assembly_broken_true.
  pose proof (d_of_lower_bound (with_theta2 config (IZR t2)) H1 H2) as Hlow.
  cbn [with_theta2 r1 r2 r3 r4] in Hlow |- *. lra.
Qed.

Lemma computeTrajectory_empty_witness :
  computeTrajectory unreachable_config Plus1 = [].
Proof.
  apply (computeTrajectory_empty unreachable_config Plus1);
    cbn [r1 r2 r3 r4 unreachable_config]; lra.
Defined.

(** X12. The two assembly modes drop the same samples: their trajectories have
    the same sequence of driver angles. *)
Theorem computeTrajectory_modes_same_angles (config : LinkageConfig) :
  map TrajectoryPoint.theta2 (computeTrajectory config Plus1)
  = map TrajectoryPoint.theta2 (computeTrajectory config Minus1).
Proof.
  rewrite !computeTrajectory_eq, !map_map.
  rewrite (filter_ext (sample_valid config Plus1) (sample_valid config Minus1)).
  - reflexivity.
  - intro t2. unfold sample_valid. rewrite !isValid_solveLinkage. reflexivity.
Qed.

Lemma sample_angles_range (t2 : Z) :
  In t2 sample_angles -> (0 <= t2 <= 360)%Z /\ Z.even t2 = true.
Proof.
  unfold sample_angles. intro Hin.
  apply in_map_iff in Hin. destruct Hin as (k & <- & Hk).
  apply in_seq in Hk. split; [lia|].
  rewrite Z.even_mul. reflexivity.
Qed.

(** X13. The trajectory never has more than 181 points, and the driver
    angle of every point of it is an even integer between 0 and 360. *)
Theorem computeTrajectory_angles_bounded
    (config : LinkageConfig) (assemblyMode : AssemblyMode) :
  (length (computeTrajectory config assemblyMode) <= 181)%nat
  /\ Forall (fun p =>
               exists t2 : Z,
                 (0 <= t2 <= 360)%Z /\ Z.even t2 = true
                 /\ TrajectoryPoint.theta2 p = Fin (IZR t2))
            (computeTrajectory config assemblyMode).
Proof.
  rewrite computeTrajectory_eq. split.
  - rewrite length_map.
    change 181%nat with (length sample_angles). apply filter_length_le.
  - apply Forall_forall. intros p Hp.
    apply in_map_iff in Hp. destruct Hp as (t2 & <- & Hin).
    apply filter_In in Hin. destruct Hin as [Hin _].
    destruct (sample_angles_range t2 Hin) as [Hrange Heven].
    exists t2. repeat split; try assumption; lia.
Qed.

(** ** The reach of the coupler point *)

Lemma Rabs_sqr_self (v : R) : Rabs v * Rabs v = v * v.
Proof. unfold Rabs. destruct (Rcase_abs v); ring. Qed.

(** X4. For a valid pose the coupler point stays within distance
    [|r2| + |r6|] of the first fixed pivot, the origin. *)
Theorem coupler_point_reach
    (config : LinkageConfig) (assemblyMode : AssemblyMode) :
  isValid (solveLinkage config assemblyMode) = true ->
  exists C : Point,
    point_of (Cx (solveLinkage config assemblyMode))
             (Cy (solveLinkage config assemblyMode)) = Some C
    /\ dist C {| x := 0; y := 0 |} <= Rabs (r2 config) + Rabs (r6 config).
Proof.
  rewrite isValid_solveLinkage, solveLinkage_eq.
  destruct (assembly_broken config); [discriminate|].
  intros _. cbn [Cx Cy point_of].
  exists (jointC config assemblyMode). rewrite point_eta.
  split; [reflexivity|].
  pose proof (Rabs_pos (r2 config)) as Hr2.
  pose proof (Rabs_pos (r6 config)) as Hr6.
  rewrite <- (sqrt_square (Rabs (r2 config) + Rabs (r6 config))) by lra.
  unfold dist. apply sqrt_le_1_alt.
  unfold jointC, jointA. cbn [x y].
  set (t := toRad (theta2 config)).
  set (f := theta3Rad_of config assemblyMode + toRad (beta config)).
  pose proof (sin2_cos2 t) as Ht. unfold Rsqr in Ht.
  pose proof (sin2_cos2 f) as Hf. unfold Rsqr in Hf.
  pose proof (COS_bound (t - f)) as [Hlo Hhi]. rewrite cos_minus in Hlo, Hhi.
  pose proof (Rabs_sqr_self (r2 config)) as H2.
  pose proof (Rabs_sqr_self (r6 config)) as H6.
  assert (r2 config * r6 config * (cos t * cos f + sin t * sin f)
          <= Rabs (r2 config) * Rabs (r6 config)) as Hk.
  { rewrite <- Rabs_mult.
    set (p := r2 config * r6 config).
    unfold Rabs. destruct (Rcase_abs p); nra. }
  nra.
Qed.

Lemma coupler_point_reach_witness :
  exists C : Point,
    point_of (Cx (solveLinkage initial_config Plus1))
             (Cy (solveLinkage initial_config Plus1)) = Some C
    /\ dist C {| x := 0; y := 0 |}
       <= Rabs (r2 initial_config) + Rabs (r6 initial_config).
Proof.
  apply (coupler_point_reach initial_config Plus1).
  apply (initial_config_valid Plus1).
Defined.

(** * The application around the solver *)

(** ** The animation step *)

Lemma Rgeb_true (a b : R) : Rgeb a b = true <-> a >= b.
Proof. unfold Rgeb. destruct (Rge_dec a b); split; intros; try easy. Qed.

Lemma Rgeb_false (a b : R) : Rgeb a b = false <-> a < b.
Proof.
  unfold Rgeb. destruct (Rge_dec a b); split; intros; try easy; lra.
Qed.

(** X15. An animation step keeps the driver angle in [0, 360) as long as the
    angle advanced in one frame, [0.06 * animationSpeed * deltaTime], is
    non-negative and less than a full turn. *)
Theorem animate_update_in_range
    (animationSpeed deltaTime : R) (prev : LinkageConfig) :
  0 <= theta2 prev < 360 ->
  0 <= 6 / 100 * animationSpeed * deltaTime < 360 ->
  0 <= theta2 (animate_update animationSpeed deltaTime prev) < 360.
Proof.
  intros Hprev Hstep. unfold animate_update. cbv zeta. cbn [theta2 with_theta2].
  destruct (Rgeb (theta2 prev + 6 / 100 * animationSpeed * deltaTime) 360) eqn:Hge.
  - apply Rgeb_true in Hge. lra.
  - apply Rgeb_false in Hge. lra.
Qed.

Lemma animate_update_in_range_witness :
  0 <= theta2 (animate_update 1 16 (with_theta2 initial_config 359)) < 360.
Proof.
  apply (animate_update_in_range 1 16 (with_theta2 initial_config 359));
    cbn [theta2 with_theta2]; lra.
Defined.

(** ** The table of exact solutions *)

Lemma if_same {A : Type} (b : bool) (a : A) : (if b then a else a) = a.
Proof. destruct b; reflexivity. Qed.

Lemma Rltb_nonneg (a : R) : 0 <= a -> Rltb a 0 = false.
Proof.
  intro Ha. destruct (Rltb a 0) eqn:Hlt; [|reflexivity].
  apply Rltb_true in Hlt. lra.
Qed.

Lemma SolutionTable_result_angles
    (config : LinkageConfig) (assemblyMode : AssemblyMode) (angle : R) :
  SolutionTable.angle (SolutionTable.result config assemblyMode angle) = angle
  /\ SolutionTable.theta2 (SolutionTable.result config assemblyMode angle)
     = if Rltb angle 0 then 360 + angle else angle.
Proof.
  unfold SolutionTable.result. cbv zeta.
  cbn [SolutionTable.angle SolutionTable.theta2].
  rewrite if_same. split; reflexivity.
Qed.

Lemma SolutionTable_result_cells
    (config : LinkageConfig) (assemblyMode : AssemblyMode) (angle : R) :
  let r := SolutionTable.result config assemblyMode angle in
  let sol :=
    solveLinkage
      {| r1 := r1 config; r2 := r2 config; r3 := r3 config; r4 := r4 config;
         r6 := r6 config; beta := beta config;
         theta2 := SolutionTable.theta2 r |}
      assemblyMode in
  SolutionTable.isValid r = isValid sol
  /\ (isValid sol = true ->
      SolutionTable.theta3 r = SolutionTable.toFixed (theta3 sol) 2
      /\ SolutionTable.theta4 r = SolutionTable.toFixed (theta4 sol) 2)
  /\ (isValid sol = false ->
      SolutionTable.theta3 r = SolutionTable.NotAvailable
      /\ SolutionTable.theta4 r = SolutionTable.NotAvailable).
Proof.
  unfold SolutionTable.result. cbv zeta.
  cbn [SolutionTable.isValid SolutionTable.theta2 SolutionTable.theta3
       SolutionTable.theta4].
  set (n := if Rltb angle 0 then 360 + angle else angle).
  change {| r1 := r1 config; r2 := r2 config; r3 := r3 config; r4 := r4 config;
            r6 := r6 config; beta := beta config; theta2 := n |}
    with (with_theta2 config n).
  destruct (isValid (solveLinkage (with_theta2 config n) assemblyMode));
    repeat split; try discriminate; reflexivity.
Qed.

(** X17. The table has one row for each of the angles 0, 90, 180 and -90,
    in this order, solved at the driver angles 0, 90, 180 and 270 with the
    other fields of the configuration unchanged.  A row is valid exactly
    when the solver reports a valid pose at its driver angle; its two angle
    cells are then the solver's [theta3] and [theta4] formatted with two
    digits, and both read N/A otherwise. *)
Theorem SolutionTable_rows
    (config : LinkageConfig) (assemblyMode : AssemblyMode) :
  map SolutionTable.angle (SolutionTable.results config assemblyMode)
  = [0; 90; 180; -90]
  /\ map SolutionTable.theta2 (SolutionTable.results config assemblyMode)
     = [0; 90; 180; 270]
  /\ Forall
       (fun r =>
          let sol :=
            solveLinkage
              {| r1 := r1 config; r2 := r2 config; r3 := r3 config;
                 r4 := r4 config; r6 := r6 config; beta := beta config;
                 theta2 := SolutionTable.theta2 r |}
              assemblyMode in
          SolutionTable.isValid r = isValid sol
          /\ (isValid sol = true ->
              SolutionTable.theta3 r = SolutionTable.toFixed (theta3 sol) 2
              /\ SolutionTable.theta4 r = SolutionTable.toFixed (theta4 sol) 2)
          /\ (isValid sol = false ->
              SolutionTable.theta3 r = SolutionTable.NotAvailable
              /\ SolutionTable.theta4 r = SolutionTable.NotAvailable))
       (SolutionTable.results config assemblyMode).
Proof.
  assert (Rltb (-90) 0 = true) as Hneg by (apply Rltb_true; lra).
  unfold SolutionTable.results, SolutionTable.testAngles.
  cbn [map].
  split; [|split].
  - rewrite !(proj1 (SolutionTable_result_angles config assemblyMode _)).
    reflexivity.
  - rewrite !(proj2 (SolutionTable_result_angles config assemblyMode _)).
    rewrite Hneg, !Rltb_nonneg by lra.
    repeat f_equal. lra.
  - repeat apply Forall_cons; try apply Forall_nil;
      apply SolutionTable_result_cells.
Qed.

Lemma SolutionTable_rows_witness :
  Forall (fun r =>
            SolutionTable.theta3 r = SolutionTable.NotAvailable
            /\ SolutionTable.theta4 r = SolutionTable.NotAvailable)
         (SolutionTable.results unreachable_config Minus1).
Proof.
  destruct (SolutionTable_rows unreachable_config Minus1) as (_ & _ & Hrows).
  eapply Forall_impl; [|exact Hrows].
  cbv zeta. intros r (_ & _ & Hna). apply Hna.
  rewrite isValid_solveLinkage, negb_false_iff.
  apply assembly_broken_true.
  match goal with
  | |- context [d_of ?c] =>
      pose proof (d_of_lower_bound c ltac:(cbn [r1 unreachable_config]; lra)
                                     ltac:(cbn [r2 unreachable_config]; lra))
        as Hlow
  end.
  cbn [r1 r2 r3 r4 unreachable_config] in Hlow |- *. lra.
Defined.

(** ** Zooming and panning the canvas *)

Lemma Rgtb_false (a b : R) : Rgtb a b = false <-> a <= b.
Proof.
  unfold Rgtb. destruct (Rgt_dec a b); split; intros; try easy; lra.
Qed.

Lemma Rltb_false (a b : R) : Rltb a b = false <-> b <= a.
Proof.
  unfold Rltb. destruct (Rlt_dec a b); split; intros; try easy; lra.
Qed.

Lemma Rgtb_1_0 : Rgtb 1 0 = true.
Proof. apply Rgtb_true. lra. Qed.

Lemma Rgtb_m1_0 : Rgtb (-1) 0 = false.
Proof. apply Rgtb_false. lra. Qed.

Lemma Rgtb_1_50 : Rgtb 1 50 = false.
Proof. apply Rgtb_false. lra. Qed.

(** The new size computed by [handleWheel] from the current size and the
    zoom factor of the wheel direction. *)
Lemma handleWheel_cases (deltaY : R) (viewBox prev : LinkageCanvas.ViewBox) :
  let k := if Rgtb deltaY 0 then 11 / 10 else 1 / (11 / 10) in
  let size :=
    if Rltb (LinkageCanvas.w viewBox * k) 1 then (1, 1)
    else if Rgtb (LinkageCanvas.w viewBox * k) 50 then (50, 50)
         else (LinkageCanvas.w viewBox * k, LinkageCanvas.h viewBox * k) in
  LinkageCanvas.handleWheel deltaY viewBox prev
  = {| LinkageCanvas.x :=
         LinkageCanvas.x prev + (LinkageCanvas.w viewBox - fst size) / 2;
       LinkageCanvas.y :=
         LinkageCanvas.y prev + (LinkageCanvas.h viewBox - snd size) / 2;
       LinkageCanvas.w := fst size;
       LinkageCanvas.h := snd size |}.
Proof.
  cbv zeta. unfold LinkageCanvas.handleWheel. cbv zeta.
  destruct (Rgtb deltaY 0); rewrite ?Rgtb_1_0, ?Rgtb_m1_0;
    match goal with
    | |- context [Rltb ?a 1] => destruct (Rltb a 1)
    end; cbv beta iota; rewrite ?Rgtb_1_50; cbv beta iota;
    try match goal with
    | |- context [Rgtb ?a 50] => destruct (Rgtb a 50)
    end; reflexivity.
Qed.

(** X18. After any wheel event the view is between 1 and 50 units wide; a
    square view stays square; and when the update is applied to the view
    the handler was created for, the centre of the view does not move. *)
Theorem handleWheel_zoom (deltaY : R) (viewBox prev : LinkageCanvas.ViewBox) :
  1 <= LinkageCanvas.w (LinkageCanvas.handleWheel deltaY viewBox prev) <= 50
  /\ (LinkageCanvas.w viewBox = LinkageCanvas.h viewBox ->
      LinkageCanvas.w (LinkageCanvas.handleWheel deltaY viewBox prev)
      = LinkageCanvas.h (LinkageCanvas.handleWheel deltaY viewBox prev))
  /\ LinkageCanvas.x (LinkageCanvas.handleWheel deltaY viewBox viewBox)
     + LinkageCanvas.w (LinkageCanvas.handleWheel deltaY viewBox viewBox) / 2
     = LinkageCanvas.x viewBox + LinkageCanvas.w viewBox / 2
  /\ LinkageCanvas.y (LinkageCanvas.handleWheel deltaY viewBox viewBox)
     + LinkageCanvas.h (LinkageCanvas.handleWheel deltaY viewBox viewBox) / 2
     = LinkageCanvas.y viewBox + LinkageCanvas.h viewBox / 2.
Proof.
  rewrite !handleWheel_cases. cbv zeta.
  cbn [LinkageCanvas.x LinkageCanvas.y LinkageCanvas.w LinkageCanvas.h].
  set (k := if Rgtb deltaY 0 then 11 / 10 else 1 / (11 / 10)).
  destruct (Rltb (LinkageCanvas.w viewBox * k) 1) eqn:Hlow.
  - cbn [fst snd]. repeat split; try lra.
  - apply Rltb_false in Hlow.
    destruct (Rgtb (LinkageCanvas.w viewBox * k) 50) eqn:Hhigh.
    + cbn [fst snd]. repeat split; try lra.
    + apply Rgtb_false in Hhigh. cbn [fst snd].
      repeat split; try lra.
      intros ->. reflexivity.
Qed.

Lemma handleWheel_zoom_witness :
  LinkageCanvas.w
    (LinkageCanvas.handleWheel 1 LinkageCanvas.mountView LinkageCanvas.resetView)
  = LinkageCanvas.h
      (LinkageCanvas.handleWheel 1 LinkageCanvas.mountView LinkageCanvas.resetView).
Proof.
  apply (proj1 (proj2 (handleWheel_zoom 1 LinkageCanvas.mountView
                         LinkageCanvas.resetView))).
  reflexivity.
Defined.

(** X19. Zooming out by one wheel step and then in by one step, or in and then
    out, restores the view exactly, provided neither step hits a zoom
    limit. *)
Theorem handleWheel_round_trip
    (deltaOut deltaIn : R) (viewBox : LinkageCanvas.ViewBox) :
  deltaOut > 0 -> deltaIn <= 0 ->
  11 / 10 <= LinkageCanvas.w viewBox <= 500 / 11 ->
  LinkageCanvas.handleWheel deltaIn
    (LinkageCanvas.handleWheel deltaOut viewBox viewBox)
    (LinkageCanvas.handleWheel deltaOut viewBox viewBox)
  = viewBox
  /\ LinkageCanvas.handleWheel deltaOut
       (LinkageCanvas.handleWheel deltaIn viewBox viewBox)
       (LinkageCanvas.handleWheel deltaIn viewBox viewBox)
     = viewBox.
Proof.
  intros Hout Hin [Hlo Hhi].
  apply Rgtb_true in Hout. apply Rgtb_false in Hin.
  assert (forall v, 1 <= v <= 50 -> Rltb v 1 = false /\ Rgtb v 50 = false) as Hfree.
  { intros v Hv. split; [apply Rltb_false | apply Rgtb_false]; lra. }
  destruct viewBox as [vx vy vw vh]. cbn [LinkageCanvas.w] in Hlo, Hhi.
  destruct (Hfree (vw * (11 / 10))) as [Ha1 Ha2]; [lra|].
  destruct (Hfree (vw * (1 / (11 / 10)))) as [Hb1 Hb2]; [lra|].
  destruct (Hfree (vw * (11 / 10) * (1 / (11 / 10)))) as [Hc1 Hc2]; [lra|].
  destruct (Hfree (vw * (1 / (11 / 10)) * (11 / 10))) as [Hd1 Hd2]; [lra|].
  split.
  - rewrite (handleWheel_cases deltaOut). cbv zeta.
    cbn [LinkageCanvas.x LinkageCanvas.y LinkageCanvas.w LinkageCanvas.h].
    rewrite Hout, Ha1, Ha2. cbn [fst snd].
    rewrite (handleWheel_cases deltaIn). cbv zeta.
    cbn [LinkageCanvas.x LinkageCanvas.y LinkageCanvas.w LinkageCanvas.h].
    rewrite Hin, Hc1, Hc2. cbn [fst snd].
    f_equal; field.
  - rewrite (handleWheel_cases deltaIn). cbv zeta.
    cbn [LinkageCanvas.x LinkageCanvas.y LinkageCanvas.w LinkageCanvas.h].
    rewrite Hin, Hb1, Hb2. cbn [fst snd].
    rewrite (handleWheel_cases deltaOut). cbv zeta.
    cbn [LinkageCanvas.x LinkageCanvas.y LinkageCanvas.w LinkageCanvas.h].
    rewrite Hout, Hd1, Hd2. cbn [fst snd].
    f_equal; field.
Qed.

Lemma handleWheel_round_trip_witness :
  LinkageCanvas.handleWheel (-1)
    (LinkageCanvas.handleWheel 1 LinkageCanvas.mountView LinkageCanvas.mountView)
    (LinkageCanvas.handleWheel 1 LinkageCanvas.mountView LinkageCanvas.mountView)
  = LinkageCanvas.mountView.
Proof.
  apply (proj1 (handleWheel_round_trip 1 (-1) LinkageCanvas.mountView
                  ltac:(lra) ltac:(lra)
                  ltac:(cbn [LinkageCanvas.w LinkageCanvas.mountView]; lra))).
Defined.

(** X20. While a drag is in progress, the pan is determined by the mouse
    position alone: moving to one position and then to a second one gives
    the same state as moving to the second one directly, and the size of
    the view never changes. *)
Theorem handleMouseMove_path_independent
    (x1 y1 x2 y2 width : R) (s : LinkageCanvas.DragState) :
  LinkageCanvas.isDragging s = true ->
  width <> 0 -> LinkageCanvas.w (LinkageCanvas.viewBox s) <> 0 ->
  LinkageCanvas.handleMouseMove x2 y2 (Some width)
    (LinkageCanvas.handleMouseMove x1 y1 (Some width) s)
  = LinkageCanvas.handleMouseMove x2 y2 (Some width) s
  /\ LinkageCanvas.w
       (LinkageCanvas.viewBox (LinkageCanvas.handleMouseMove x2 y2 (Some width) s))
     = LinkageCanvas.w (LinkageCanvas.viewBox s)
  /\ LinkageCanvas.h
       (LinkageCanvas.viewBox (LinkageCanvas.handleMouseMove x2 y2 (Some width) s))
     = LinkageCanvas.h (LinkageCanvas.viewBox s).
Proof.
  intros Hdrag Hwidth Hw.
  unfold LinkageCanvas.handleMouseMove. cbv zeta.
  rewrite Hdrag.
  cbn [negb LinkageCanvas.isDragging LinkageCanvas.viewBox LinkageCanvas.x
       LinkageCanvas.y LinkageCanvas.w LinkageCanvas.h
       LinkageCanvas.dragStartX LinkageCanvas.dragStartY].
  repeat split.
  f_equal. f_equal; field; split; assumption.
Qed.

Lemma handleMouseMove_path_independent_witness :
  LinkageCanvas.handleMouseMove 30 40 (Some 800)
    (LinkageCanvas.handleMouseMove 10 20 (Some 800)
       (LinkageCanvas.handleMouseDown 0 0
          {| LinkageCanvas.viewBox := LinkageCanvas.mountView;
             LinkageCanvas.isDragging := false;
             LinkageCanvas.dragStartX := 0; LinkageCanvas.dragStartY := 0 |}))
  = LinkageCanvas.handleMouseMove 30 40 (Some 800)
      (LinkageCanvas.handleMouseDown 0 0
         {| LinkageCanvas.viewBox := LinkageCanvas.mountView;
            LinkageCanvas.isDragging := false;
            LinkageCanvas.dragStartX := 0; LinkageCanvas.dragStartY := 0 |}).
Proof.
  apply (proj1 (handleMouseMove_path_independent 10 20 30 40 800
                  (LinkageCanvas.handleMouseDown 0 0
                     {| LinkageCanvas.viewBox := LinkageCanvas.mountView;
                        LinkageCanvas.isDragging := false;
                        LinkageCanvas.dragStartX := 0;
                        LinkageCanvas.dragStartY := 0 |})
                  eq_refl ltac:(lra)
                  ltac:(cbn [LinkageCanvas.w LinkageCanvas.viewBox
                             LinkageCanvas.handleMouseDown
                             LinkageCanvas.mountView]; lra))).
Defined.

(** ** Editing the configuration *)

Lemma computeTrajectory_same_geometry
    (config config' : LinkageConfig) (assemblyMode : AssemblyMode) :
  same_geometry config config' ->
  computeTrajectory config assemblyMode = computeTrajectory config' assemblyMode.
Proof.
  intro Hsame. rewrite !computeTrajectory_eq.
  rewrite (filter_ext (sample_valid config assemblyMode)
                      (sample_valid config' assemblyMode)).
  - apply map_ext. intro t2. unfold sample_point.
    rewrite (with_theta2_same_geometry config config' _ Hsame). reflexivity.
  - intro t2. unfold sample_valid.
    rewrite (with_theta2_same_geometry config config' _ Hsame). reflexivity.
Qed.

(** X21. [updateConfig] sets the field it names and no other, and setting the
    driver angle leaves the trajectory unchanged. *)
Theorem updateConfig_fields
    (config : LinkageConfig) (key : ConfigKey) (val : R) :
  config_get (updateConfig config key val) key = val
  /\ (forall key' : ConfigKey,
        key' <> key ->
        config_get (updateConfig config key val) key' = config_get config key')
  /\ (forall assemblyMode : AssemblyMode,
        computeTrajectory (updateConfig config key_theta2 val) assemblyMode
        = computeTrajectory config assemblyMode).
Proof.
  split; [destruct key; reflexivity|].
  split; [intros key' Hne; destruct key, key'; try reflexivity; contradiction|].
  intro assemblyMode. apply computeTrajectory_same_geometry.
  repeat split.
Qed.

Lemma updateConfig_fields_witness :
  config_get (updateConfig initial_config key_r3 5) key_r4 = 4.
Proof.
  destruct (updateConfig_fields initial_config key_r3 5) as (_ & Hother & _).
  rewrite (Hother key_r4) by discriminate. reflexivity.
Defined.

(** ** The coupler parameters *)

(** X22. The parameters [r6] and [beta] of the coupler point only move C:
    changing either of them changes neither the validity of the pose, nor
    the joints A and B, nor the angles [theta3] and [theta4]. *)
Theorem coupler_parameters_frame
    (config : LinkageConfig) (key : ConfigKey) (val : R)
    (assemblyMode : AssemblyMode) :
  key = key_r6 \/ key = key_beta ->
  isValid (solveLinkage (updateConfig config key val) assemblyMode)
  = isValid (solveLinkage config assemblyMode)
  /\ Ax (solveLinkage (updateConfig config key val) assemblyMode)
     = Ax (solveLinkage config assemblyMode)
  /\ Ay (solveLinkage (updateConfig config key val) assemblyMode)
     = Ay (solveLinkage config assemblyMode)
  /\ Bx (solveLinkage (updateConfig config key val) assemblyMode)
     = Bx (solveLinkage config assemblyMode)
  /\ By (solveLinkage (updateConfig config key val) assemblyMode)
     = By (solveLinkage config assemblyMode)
  /\ theta3 (solveLinkage (updateConfig config key val) assemblyMode)
     = theta3 (solveLinkage config assemblyMode)
  /\ theta4 (solveLinkage (updateConfig config key val) assemblyMode)
     = theta4 (solveLinkage config assemblyMode).
Proof.
  intros [-> | ->]; destruct config as [c1 c2 c3 c4 c6 cb ct];
    unfold updateConfig, solveLinkage; cbn [r1 r2 r3 r4 r6 beta theta2];
    cbv zeta;
    match goal with
    | |- context [if ?b then _ else _] => destruct b
    end; repeat split.
Qed.

Lemma coupler_parameters_frame_witness :
  Bx (solveLinkage (updateConfig initial_config key_r6 3) Plus1)
  = Bx (solveLinkage initial_config Plus1).
Proof.
  destruct (coupler_parameters_frame initial_config key_r6 3 Plus1 (or_introl eq_refl))
    as (_ & _ & _ & HBx & _).
  exact HBx.
Defined.
